(** * CAT25256 SPI EEPROM driver: a shallow embedding of cat25256.c

    The driver talks to the device through four capabilities stored as
    function pointers in a handle.  The embedding keeps that shape:

    - the object behind [low_level_handle] is a value [d : D] that every
      capability may read and update;
    - a capability is an optional function (a NULL pointer is [None]);
    - every driver function is a computation in the monad [M], which threads
      the device object, records the capability calls in order, and has two
      abnormal outcomes: [Spin] (the busy-wait loop was still running when the
      iteration budget ran out) and [Fault] (a NULL pointer was called).

    Integers are [Z]; the C conversions that truncate are written out
    ([u8], [u32], [int32]). *)

From Stdlib Require Import ZArith List Bool Lia.
Import ListNotations.
Open Scope Z_scope.

(** ** cat25256.h *)

Inductive memory_status_t : Type :=
| MEMORY_STATUS_OK
| MEMORY_STATUS_NOK
| MEMORY_STATUS_INVALID_HANDLE.

(** [rc != MEMORY_STATUS_OK] is [negb (is_ok rc)]. *)
Definition is_ok (rc : memory_status_t) : bool :=
  match rc with
  | MEMORY_STATUS_OK => true
  | _ => false
  end.

(** ** Opcodes and constants of cat25256.c *)

Definition WREN : Z := 6.   (* 0b00000110 *)
Definition WRDI : Z := 4.   (* 0b00000100 *)
Definition RDSR : Z := 5.   (* 0b00000101 *)
Definition WRSR : Z := 1.   (* 0b00000001 *)
Definition READ : Z := 3.   (* 0b00000011 *)
Definition WRITE : Z := 2.  (* 0b00000010 *)

Definition NREADY : Z := 1.
Definition PAGE_SIZE : Z := 64.

(** ** C integer conversions *)

(** Conversion to [uint8_t]. *)
Definition u8 (z : Z) : Z := Z.land z 255.

(** Conversion to [uint32_t]. *)
Definition u32 (z : Z) : Z := z mod 2 ^ 32.

(** Conversion to a 32-bit [int] (two's complement wrap-around). *)
Definition int32 (z : Z) : Z := (z + 2 ^ 31) mod 2 ^ 32 - 2 ^ 31.

(** ** Observable events

    The four capability calls, each with its arguments and the status it
    returned, and two markers that delimit one call of
    [cat25256_write_page]: the marker at entry carries the arguments
    (address, data pointer as the bytes from that pointer on, length), the
    marker at return carries the status. *)

Inductive event : Type :=
| CsEnable (cs : Z) (rc : memory_status_t)
| CsDisable (cs : Z) (rc : memory_status_t)
| BusWrite (bytes : list Z) (rc : memory_status_t)
| BusRead (length : Z) (bytes : list Z) (rc : memory_status_t)
| PageWriteCall (address : Z) (data : list Z) (length : Z)
| PageWriteRet (rc : memory_status_t).

(** Outcome of a computation. *)
Inductive res (A : Type) : Type :=
| Val (a : A)
| Spin
| Fault.

Arguments Val {A} a.
Arguments Spin {A}.
Arguments Fault {A}.

Section Driver.

Context {D : Type}.

(** [cat25256_handle_t]: the four function pointers.  The read capability
    returns the bytes it stored into the caller's buffer. *)
Record cat25256_handle_t : Type := {
  read : option (D -> Z -> memory_status_t * list Z * D);
  write : option (D -> list Z -> memory_status_t * D);
  cs_enable : option (D -> Z -> memory_status_t * D);
  cs_disable : option (D -> Z -> memory_status_t * D)
}.

(** ** The monad *)

Definition M (A : Type) : Type := D -> res A * D * list event.

Definition ret {A : Type} (a : A) : M A := fun d => (Val a, d, []).

Definition bind {A B : Type} (m : M A) (k : A -> M B) : M B :=
  fun d =>
    match m d with
    | (Val a, d1, e1) =>
        match k a d1 with
        | (r, d2, e2) => (r, d2, e1 ++ e2)
        end
    | (Spin, d1, e1) => (Spin, d1, e1)
    | (Fault, d1, e1) => (Fault, d1, e1)
    end.

Definition emit (e : event) : M unit := fun d => (Val tt, d, [e]).

Definition spin {A : Type} : M A := fun d => (Spin, d, []).

Definition fault {A : Type} : M A := fun d => (Fault, d, []).

Notation "x <- m ;; k" := (bind m (fun x => k))
  (at level 61, m at next level, right associativity).
Notation "m ;;; k" := (bind m (fun _ => k))
  (at level 61, right associativity).

(** ** Calls through the handle's function pointers *)

Definition call_cs_enable (handle : option cat25256_handle_t) (cs : Z)
  : M memory_status_t :=
  match handle with
  | Some h =>
      match cs_enable h with
      | Some f =>
          fun d => let (rc, d') := f d cs in (Val rc, d', [CsEnable cs rc])
      | None => fault
      end
  | None => fault
  end.

Definition call_cs_disable (handle : option cat25256_handle_t) (cs : Z)
  : M memory_status_t :=
  match handle with
  | Some h =>
      match cs_disable h with
      | Some f =>
          fun d => let (rc, d') := f d cs in (Val rc, d', [CsDisable cs rc])
      | None => fault
      end
  | None => fault
  end.

Definition call_write (handle : option cat25256_handle_t) (bytes : list Z)
  : M memory_status_t :=
  match handle with
  | Some h =>
      match write h with
      | Some f =>
          fun d =>
            let (rc, d') := f d bytes in (Val rc, d', [BusWrite bytes rc])
      | None => fault
      end
  | None => fault
  end.

Definition call_read (handle : option cat25256_handle_t) (length : Z)
  : M (memory_status_t * list Z) :=
  match handle with
  | Some h =>
      match read h with
      | Some f =>
          fun d =>
            match f d length with
            | (rc, bytes, d') =>
                (Val (rc, bytes), d', [BusRead length bytes rc])
            end
      | None => fault
      end
  | None => fault
  end.

(** The caller's buffer after the read capability stored [bytes] at its
    start. *)
Definition store (data bytes : list Z) : list Z :=
  bytes ++ skipn (length bytes) data.

(** ** cat25256.c *)

Definition cat25256_check_handle (handle : option cat25256_handle_t)
  : memory_status_t :=
  match handle with
  | None => MEMORY_STATUS_INVALID_HANDLE
  | Some h =>
      match read h with
      | None => MEMORY_STATUS_INVALID_HANDLE
      | Some _ =>
          match cs_disable h with
          | None => MEMORY_STATUS_INVALID_HANDLE
          | Some _ =>
              match cs_enable h with
              | None => MEMORY_STATUS_INVALID_HANDLE
              | Some _ =>
                  match write h with
                  | None => MEMORY_STATUS_INVALID_HANDLE
                  | Some _ => MEMORY_STATUS_OK
                  end
              end
          end
      end
  end.

(** Returns the status and the caller's buffer. *)
Definition cat25256_atomic_read (handle : option cat25256_handle_t)
  (address : Z) (data : list Z) (length : Z) (cs : Z)
  : M (memory_status_t * list Z) :=
  let header := [READ; u8 (Z.shiftr address 8); u8 address] in
  call_cs_enable handle cs ;;;
  rcw <- call_write handle header ;;
  if negb (is_ok rcw) then
    call_cs_disable handle cs ;;;
    ret (MEMORY_STATUS_NOK, data)
  else
    r <- call_read handle length ;;
    call_cs_disable handle cs ;;;
    ret (fst r, store data (snd r)).

Definition cat25256_read (handle : option cat25256_handle_t)
  (address : Z) (data : list Z) (length : Z) (cs : Z)
  : M (memory_status_t * list Z) :=
  let rc := cat25256_check_handle handle in
  if negb (is_ok rc) then ret (rc, data)
  else cat25256_atomic_read handle address data length cs.

Definition cat25256_atomic_write_latch (handle : option cat25256_handle_t)
  (enable : Z) (cs : Z) : M memory_status_t :=
  call_cs_enable handle cs ;;;
  rc <- call_write handle [enable] ;;
  call_cs_disable handle cs ;;;
  ret rc.

Definition cat25256_atomic_write_latch_enable
  (handle : option cat25256_handle_t) (cs : Z) : M memory_status_t :=
  let enable := WREN in
  cat25256_atomic_write_latch handle enable cs.

Definition cat25256_atomic_write_latch_disable
  (handle : option cat25256_handle_t) (cs : Z) : M memory_status_t :=
  let disable := WRDI in
  cat25256_atomic_write_latch handle disable cs.

(** [data] is the byte the caller's pointer designates; the result carries
    its value after the call. *)
Definition cat25256_read_register (handle : option cat25256_handle_t)
  (data : Z) (cs : Z) : M (memory_status_t * Z) :=
  let rc := cat25256_check_handle handle in
  if negb (is_ok rc) then ret (rc, data)
  else
    let read_reg := RDSR in
    call_cs_enable handle cs ;;;
    rcw <- call_write handle [read_reg] ;;
    if negb (is_ok rcw) then
      call_cs_disable handle cs ;;;
      ret (MEMORY_STATUS_NOK, data)
    else
      r <- call_read handle 1 ;;
      call_cs_disable handle cs ;;;
      ret (fst r, hd data (snd r)).

Definition cat25256_write_register (handle : option cat25256_handle_t)
  (data : Z) (cs : Z) : M memory_status_t :=
  let write_reg := [WRSR; data] in
  let rc := cat25256_check_handle handle in
  if negb (is_ok rc) then ret rc
  else
    call_cs_enable handle cs ;;;
    rc <- call_write handle write_reg ;;
    call_cs_disable handle cs ;;;
    ret rc.

(** The [while (wip & NREADY)] loop; [fuel] bounds the number of
    iterations the model follows. *)
Fixpoint wait_wip_loop (fuel : nat) (handle : option cat25256_handle_t)
  (cs : Z) (wip : Z) : M memory_status_t :=
  if Z.land wip NREADY =? 0 then ret MEMORY_STATUS_OK
  else
    match fuel with
    | O => spin
    | S fuel' =>
        r <- cat25256_read_register handle wip cs ;;
        if negb (is_ok (fst r)) then ret MEMORY_STATUS_NOK
        else wait_wip_loop fuel' handle cs (snd r)
    end.

Definition cat25256_atomic_wait_wip_completed (fuel : nat)
  (handle : option cat25256_handle_t) (cs : Z) : M memory_status_t :=
  let wip := NREADY in
  wait_wip_loop fuel handle cs wip.

(** Sends the first [length] bytes found at [data]. *)
Definition cat25256_atomic_write (handle : option cat25256_handle_t)
  (address : Z) (data : list Z) (length : Z) (cs : Z) : M memory_status_t :=
  let header := [WRITE; u8 (Z.shiftr address 8); u8 address] in
  call_cs_enable handle cs ;;;
  rch <- call_write handle header ;;
  if negb (is_ok rch) then
    call_cs_disable handle cs ;;;
    ret MEMORY_STATUS_NOK
  else
    rc <- call_write handle (firstn (Z.to_nat length) data) ;;
    call_cs_disable handle cs ;;;
    ret rc.

(** The body of [cat25256_write_page]. *)
Definition write_page_body (fuel : nat) (handle : option cat25256_handle_t)
  (address : Z) (data : list Z) (length : Z) (cs : Z) : M memory_status_t :=
  let rc := cat25256_check_handle handle in
  if negb (is_ok rc) then ret rc
  else
    r1 <- cat25256_write_register handle NREADY cs ;;
    if negb (is_ok r1) then ret MEMORY_STATUS_NOK
    else
      r2 <- cat25256_atomic_write_latch_enable handle cs ;;
      if negb (is_ok r2) then ret MEMORY_STATUS_NOK
      else
        r3 <- cat25256_atomic_write handle address data length cs ;;
        if negb (is_ok r3) then
          cat25256_atomic_write_latch_disable handle cs ;;;
          ret MEMORY_STATUS_NOK
        else
          cat25256_atomic_write_latch_disable handle cs ;;;
          r5 <- cat25256_atomic_wait_wip_completed fuel handle cs ;;
          if negb (is_ok r5) then ret MEMORY_STATUS_NOK
          else ret rc.

Definition cat25256_write_page (fuel : nat) (handle : option cat25256_handle_t)
  (address : Z) (data : list Z) (length : Z) (cs : Z) : M memory_status_t :=
  emit (PageWriteCall address data length) ;;;
  rc <- write_page_body fuel handle address data length cs ;;
  emit (PageWriteRet rc) ;;;
  ret rc.

(** The [for (int i = 0; i < page_count; ++i)] loop of
    [cat25256_write_address_aligned]; [n] counts the iterations left. *)
Fixpoint write_aligned_loop (fuel : nat) (handle : option cat25256_handle_t)
  (address : Z) (data : list Z) (length : Z) (cs : Z)
  (page_count : Z) (n : nat) (i : Z) : M memory_status_t :=
  match n with
  | O => ret MEMORY_STATUS_OK
  | S n' =>
      rc <- (if i =? page_count - 1 then
               cat25256_write_page fuel handle
                 (u32 (address + int32 (i * PAGE_SIZE)))
                 (skipn (Z.to_nat (int32 (i * PAGE_SIZE))) data)
                 (length mod PAGE_SIZE) cs
             else
               cat25256_write_page fuel handle
                 (u32 (address + int32 (i * PAGE_SIZE)))
                 (skipn (Z.to_nat (int32 (i * PAGE_SIZE))) data)
                 PAGE_SIZE cs) ;;
      if negb (is_ok rc) then ret rc
      else write_aligned_loop fuel handle address data length cs
             page_count n' (i + 1)
  end.

Definition cat25256_write_address_aligned (fuel : nat)
  (handle : option cat25256_handle_t)
  (address : Z) (data : list Z) (length : Z) (cs : Z) : M memory_status_t :=
  let page_count := length / PAGE_SIZE in
  let page_count :=
    if negb (length mod PAGE_SIZE =? 0) then page_count + 1 else page_count in
  write_aligned_loop fuel handle address data length cs
    page_count (Z.to_nat page_count) 0.

Definition cat25256_write_address_unaligned (fuel : nat)
  (handle : option cat25256_handle_t)
  (address : Z) (data : list Z) (length : Z) (cs : Z) : M memory_status_t :=
  let length_first_transmission := PAGE_SIZE - address mod PAGE_SIZE in
  let length_first_transmission :=
    if length_first_transmission >? length then length
    else length_first_transmission in
  rc <- cat25256_write_page fuel handle address data
          length_first_transmission cs ;;
  if negb (is_ok rc) then ret rc
  else
    let length_remainder := int32 (length - length_first_transmission) in
    if length_remainder >? 0 then
      cat25256_write_address_aligned fuel handle
        (u32 (address + length_first_transmission))
        (skipn (Z.to_nat length_first_transmission) data)
        (u32 length_remainder) cs
    else ret rc.

Definition cat25256_write (fuel : nat) (handle : option cat25256_handle_t)
  (address : Z) (data : list Z) (length : Z) (cs : Z) : M memory_status_t :=
  if length <=? PAGE_SIZE then
    cat25256_write_page fuel handle address data length cs
  else if address mod PAGE_SIZE =? 0 then
    cat25256_write_address_aligned fuel handle address data length cs
  else
    cat25256_write_address_unaligned fuel handle address data length cs.

End Driver.

Arguments cat25256_handle_t D : clear implicits.
Arguments M D A : clear implicits.

(** ** Reading a run *)

Definition outcome {D A : Type} (x : res A * D * list event) : res A :=
  fst (fst x).

Definition device {D A : Type} (x : res A * D * list event) : D :=
  snd (fst x).

Definition events {D A : Type} (x : res A * D * list event) : list event :=
  snd x.

Definition is_capability_call (e : event) : bool :=
  match e with
  | PageWriteCall _ _ _ | PageWriteRet _ => false
  | _ => true
  end.

(** The calls of capabilities among the events. *)
Definition capability_calls (evs : list event) : list event :=
  filter is_capability_call evs.

(** The page-write markers among the events. *)
Definition page_events (evs : list event) : list event :=
  filter (fun e => negb (is_capability_call e)) evs.

(** The arguments of the page-writes that were started, in order. *)
Definition page_calls (evs : list event) : list (Z * list Z * Z) :=
  flat_map (fun e =>
              match e with
              | PageWriteCall a dt l => [(a, dt, l)]
              | _ => []
              end) evs.

(** Byte transfers, as opposed to chip-select calls and markers. *)
Definition is_transfer (e : event) : bool :=
  match e with
  | BusWrite _ _ | BusRead _ _ _ => true
  | _ => false
  end.

Definition is_bus_read (e : event) : bool :=
  match e with
  | BusRead _ _ _ => true
  | _ => false
  end.

(** One chip-select scope: enable, transfers only, disable. *)
Definition cs_framed (cs : Z) (evs : list event) : Prop :=
  exists rc_en mid rc_dis,
    evs = CsEnable cs rc_en :: mid ++ [CsDisable cs rc_dis] /\
    forallb is_transfer mid = true.

(** A handle that [cat25256_check_handle] rejects. *)
Definition invalid_handle {D : Type} (handle : option (cat25256_handle_t D))
  : Prop :=
  match handle with
  | None => True
  | Some h =>
      read h = None \/ write h = None \/
      cs_enable h = None \/ cs_disable h = None
  end.

(** The markers of page-writes that all returned [MEMORY_STATUS_OK]. *)
Definition ok_pages (calls : list (Z * list Z * Z)) : list event :=
  flat_map (fun c =>
              [PageWriteCall (fst (fst c)) (snd (fst c)) (snd c);
               PageWriteRet MEMORY_STATUS_OK]) calls.

(** The results of the first [n] consecutive calls of
    [cat25256_read_register] on the same byte. *)
Fixpoint polls {D : Type} (n : nat) (handle : option (cat25256_handle_t D))
  (cs : Z) (wip : Z) (d : D) : list (memory_status_t * Z) :=
  match n with
  | O => []
  | S n' =>
      match cat25256_read_register handle wip cs d with
      | (Val r, d', _) => r :: polls n' handle cs (snd r) d'
      | _ => []
      end
  end.

(** A status-register read that succeeded and showed the busy bit set. *)
Definition still_busy (r : memory_status_t * Z) : bool :=
  is_ok (fst r) && negb (Z.land (snd r) NREADY =? 0).

(** A computation all of whose events are capability calls. *)
Definition bus_only {D A : Type} (m : M D A) : Prop :=
  forall d, forallb is_capability_call (events (m d)) = true.

(** A computation that calls no NULL pointer. *)
Definition no_fault {D A : Type} (m : M D A) : Prop :=
  forall d, outcome (m d) <> Fault.

(** Every page-write started before the last one returned
    [MEMORY_STATUS_OK]; the last one either returned the status of the whole
    operation or was still busy-waiting. *)
Definition stops_at_first_failure (r : res memory_status_t)
  (pevs : list event) : Prop :=
  exists done a dt l,
    match r with
    | Val rc => pevs = ok_pages done ++ [PageWriteCall a dt l; PageWriteRet rc]
    | Spin => pevs = ok_pages done ++ [PageWriteCall a dt l]
    | Fault => False
    end.

(** The loop stops at poll number [n] (counted from 0) with status [rc]:
    the polls before it succeeded and showed the busy bit, and poll [n]
    either failed ([rc] is [MEMORY_STATUS_NOK]) or succeeded with the busy
    bit clear ([rc] is [MEMORY_STATUS_OK]). *)
Definition stops_at_poll {D : Type} (n : nat)
  (handle : option (cat25256_handle_t D)) (cs wip : Z) (d : D)
  (rc : memory_status_t) : Prop :=
  exists before last,
    polls (S n) handle cs wip d = before ++ [last] /\
    List.length before = n /\
    forallb still_busy before = true /\
    still_busy last = false /\
    rc = (if is_ok (fst last) then MEMORY_STATUS_OK else MEMORY_STATUS_NOK).

(** An event without the status a chip-select call returned. *)
Definition forget_cs_status (e : event) : event :=
  match e with
  | CsEnable cs _ => CsEnable cs MEMORY_STATUS_OK
  | CsDisable cs _ => CsDisable cs MEMORY_STATUS_OK
  | _ => e
  end.

(** Two computations that, from every device object, end with the same
    outcome and the same device object after the same calls, the statuses of
    the chip-select calls apart. *)
Definition agree {D A : Type} (m m' : M D A) : Prop :=
  forall d,
    outcome (m d) = outcome (m' d) /\
    device (m d) = device (m' d) /\
    map forget_cs_status (events (m d)) = map forget_cs_status (events (m' d)).

(** The page-writes [calls] tile the range that starts at [a]: each one
    starts where the one before ended, takes its bytes from the matching
    place of the caller's buffer and is at most one page long. *)
Fixpoint covers_from (a : Z) (data : list Z) (calls : list (Z * list Z * Z))
  : Prop :=
  match calls with
  | [] => True
  | (a', dt, l) :: rest =>
      a' = a /\ dt = data /\ 0 <= l <= PAGE_SIZE /\
      covers_from (a + l) (skipn (Z.to_nat l) data) rest
  end.

(** The number of bytes the page-writes [calls] send together. *)
Definition total_length (calls : list (Z * list Z * Z)) : Z :=
  fold_right (fun c s => snd c + s) 0 calls.

(** The byte strings handed to the write capability, in order. *)
Definition bus_writes (evs : list event) : list (list Z) :=
  flat_map (fun e =>
              match e with
              | BusWrite bytes _ => [bytes]
              | _ => []
              end) evs.

(** A page-write that stays inside one page of the device. *)
Definition fits_page (c : Z * list Z * Z) : Prop :=
  0 <= snd c /\ fst (fst c) mod PAGE_SIZE + snd c <= PAGE_SIZE.

(** The bytes the page-writes [calls] take from their data pointers, one
    after the other. *)
Definition payloads (calls : list (Z * list Z * Z)) : list Z :=
  flat_map (fun c => firstn (Z.to_nat (snd c)) (snd (fst c))) calls.

(** The events of a status-register read on chip-select [cs]: the
    chip-select calls, the RDSR byte and the reception of one byte. *)
Definition is_status_poll (cs : Z) (e : event) : bool :=
  match e with
  | CsEnable c _ | CsDisable c _ => c =? cs
  | BusWrite [b] _ => b =? RDSR
  | BusRead l _ _ => l =? 1
  | _ => false
  end.

(** A computation whose result, when it returns, satisfies [P]. *)
Definition returns_only {D A : Type} (P : A -> Prop) (m : M D A) : Prop :=
  forall d,
    match outcome (m d) with
    | Val a => P a
    | _ => True
    end.

(** The two statuses a write on a valid handle can return. *)
Definition ok_or_nok (rc : memory_status_t) : Prop :=
  rc = MEMORY_STATUS_OK \/ rc = MEMORY_STATUS_NOK.

(** A computation that returns from every device object, with a result
    that satisfies [P]. *)
Definition always_returns {D A : Type} (P : A -> Prop) (m : M D A) : Prop :=
  forall d, exists a, outcome (m d) = Val a /\ P a.

(** A status byte with the busy bit clear. *)
Definition ready_byte (r : memory_status_t * list Z) : Prop :=
  fst r = MEMORY_STATUS_OK /\
  exists b rest, snd r = b :: rest /\ Z.land b NREADY = 0.

(** The device object after the first [n] consecutive calls of
    [cat25256_read_register] on the same byte, and the events of these
    calls. *)
Fixpoint polls_run {D : Type} (n : nat) (handle : option (cat25256_handle_t D))
  (cs : Z) (wip : Z) (d : D) : D * list event :=
  match n with
  | O => (d, [])
  | S n' =>
      match cat25256_read_register handle wip cs d with
      | (Val r, d', e) =>
          let (d'', es) := polls_run n' handle cs (snd r) d' in
          (d'', e ++ es)
      | (_, d', e) => (d', e)
      end
  end.

(** The events of a status-register read that went through and delivered
    [bytes], the statuses of the chip-select calls apart. *)
Definition status_read_frame (cs : Z) (bytes : list Z) : list event :=
  [CsEnable cs MEMORY_STATUS_OK; BusWrite [RDSR] MEMORY_STATUS_OK;
   BusRead 1 bytes MEMORY_STATUS_OK; CsDisable cs MEMORY_STATUS_OK].

(** The events of a status-register read that failed, the statuses of the
    chip-select calls apart: the RDSR byte did not go through and nothing
    was received, or the reception failed. *)
Definition failed_status_read (cs : Z) (evs : list event) : Prop :=
  (exists rcw,
     rcw <> MEMORY_STATUS_OK /\
     evs = [CsEnable cs MEMORY_STATUS_OK; BusWrite [RDSR] rcw;
            CsDisable cs MEMORY_STATUS_OK]) \/
  (exists rc bytes,
     rc <> MEMORY_STATUS_OK /\
     evs = [CsEnable cs MEMORY_STATUS_OK; BusWrite [RDSR] MEMORY_STATUS_OK;
            BusRead 1 bytes rc; CsDisable cs MEMORY_STATUS_OK]).

(** The values the polled byte takes, starting from [wip], as successful
    status-register reads deliver [reads]: each reception stores its first
    byte. *)
Fixpoint wip_values (wip : Z) (reads : list (list Z))
  : list (memory_status_t * Z) :=
  match reads with
  | [] => []
  | bytes :: rest =>
      (MEMORY_STATUS_OK, hd wip bytes) :: wip_values (hd wip bytes) rest
  end.

(** The polled byte after the receptions [reads]. *)
Definition wip_after (wip : Z) (reads : list (list Z)) : Z :=
  fold_left (fun w bytes => hd w bytes) reads wip.

(** ** Bench devices *)

(** The device object of the bench: the number of write-capability calls
    seen so far and the number of status reads that will still show the
    busy bit. *)
Record bench : Type := {
  writes_seen : nat;
  busy_reads : nat
}.

(** The read capability of the bench: succeeds, with status byte 1 while
    the device is busy and 0 afterwards. *)
Definition bench_read (d : bench) (len : Z)
  : memory_status_t * list Z * bench :=
  match busy_reads d with
  | O => (MEMORY_STATUS_OK, repeat 0 (Z.to_nat len), d)
  | S b => (MEMORY_STATUS_OK, repeat 1 (Z.to_nat len),
            {| writes_seen := writes_seen d; busy_reads := b |})
  end.

(** The write capability of the bench: succeeds, except at the call number
    [fail_at]. *)
Definition bench_write (fail_at : option nat) (d : bench) (bytes : list Z)
  : memory_status_t * bench :=
  (match fail_at with
   | Some k => if Nat.eqb k (writes_seen d) then MEMORY_STATUS_NOK
               else MEMORY_STATUS_OK
   | None => MEMORY_STATUS_OK
   end,
   {| writes_seen := S (writes_seen d); busy_reads := busy_reads d |}).

(** The chip-select capabilities of the bench: report [cs_rc]. *)
Definition bench_cs (cs_rc : memory_status_t) (d : bench) (cs : Z)
  : memory_status_t * bench :=
  (cs_rc, d).

Definition bench_handle (fail_at : option nat) (cs_rc : memory_status_t)
  : cat25256_handle_t bench := {|
  read := Some bench_read;
  write := Some (bench_write fail_at);
  cs_enable := Some (bench_cs cs_rc);
  cs_disable := Some (bench_cs cs_rc)
|}.

Definition bench0 (busy : nat) : bench :=
  {| writes_seen := 0; busy_reads := busy |}.

(** A device whose status register never clears the busy bit. *)
Definition stuck_handle : cat25256_handle_t unit := {|
  read := Some (fun d len => (MEMORY_STATUS_OK, repeat 1 (Z.to_nat len), d));
  write := Some (fun d _ => (MEMORY_STATUS_OK, d));
  cs_enable := Some (fun d _ => (MEMORY_STATUS_OK, d));
  cs_disable := Some (fun d _ => (MEMORY_STATUS_OK, d))
|}.

(** A handle without its read capability. *)
Definition no_read_handle : cat25256_handle_t bench := {|
  read := None;
  write := write (bench_handle None MEMORY_STATUS_OK);
  cs_enable := cs_enable (bench_handle None MEMORY_STATUS_OK);
  cs_disable := cs_disable (bench_handle None MEMORY_STATUS_OK)
|}.

(** A device that is always ready: every transfer succeeds and the status
    register reads 0.  There is nothing to remember. *)
Definition ready_read (d : unit) (len : Z) : memory_status_t * list Z * unit :=
  (MEMORY_STATUS_OK, repeat 0 (Z.to_nat len), d).

Definition ready_write (d : unit) (bytes : list Z) : memory_status_t * unit :=
  (MEMORY_STATUS_OK, d).

(** Chip-select calls that report [cs_rc]. *)
Definition ready_cs (cs_rc : memory_status_t) (d : unit) (cs : Z)
  : memory_status_t * unit :=
  (cs_rc, d).

(** * Properties *)

(** Runs a straight-line primitive on a handle whose four capabilities are
    known: every capability answer is named. *)
Ltac step_calls :=
  repeat match goal with
         | |- context [match ?f ?d ?x with (_, _) => _ end] =>
             let rc := fresh "rc" in
             let bs := fresh "bytes" in
             let d' := fresh "d" in
             first [ destruct (f d x) as [[rc bs] d']
                   | destruct (f d x) as [rc d'] ]; cbn
         | |- context [is_ok ?rc] => destruct rc; cbn
         end.


(** ** Handle validation *)

Section Validation.

Context {D : Type}.
Implicit Types handle : option (cat25256_handle_t D).

Lemma check_handle_cases handle :
  cat25256_check_handle handle = MEMORY_STATUS_OK \/
  cat25256_check_handle handle = MEMORY_STATUS_INVALID_HANDLE.
Proof.
  destruct handle as [[[rd|] [wr|] [en|] [dis|]]|]; cbn; auto.
Qed.

Lemma check_handle_ok_inv handle :
  cat25256_check_handle handle = MEMORY_STATUS_OK ->
  exists rd wr en dis,
    handle = Some {| read := Some rd; write := Some wr;
                     cs_enable := Some en; cs_disable := Some dis |}.
Proof.
  destruct handle as [[[rd|] [wr|] [en|] [dis|]]|]; cbn; try discriminate.
  intros _. now exists rd, wr, en, dis.
Qed.

Lemma check_handle_invalid handle :
  invalid_handle handle ->
  cat25256_check_handle handle = MEMORY_STATUS_INVALID_HANDLE.
Proof.
  destruct handle as [[[rd|] [wr|] [en|] [dis|]]|]; cbn; auto.
  intros [H|[H|[H|H]]]; discriminate H.
Qed.

Lemma write_page_invalid handle fuel address data length cs d :
  invalid_handle handle ->
  cat25256_write_page fuel handle address data length cs d =
  (Val MEMORY_STATUS_INVALID_HANDLE, d,
   [PageWriteCall address data length;
    PageWriteRet MEMORY_STATUS_INVALID_HANDLE]).
Proof.
  intros H. unfold cat25256_write_page, write_page_body, bind, emit.
  rewrite (check_handle_invalid _ H). reflexivity.
Qed.

Lemma page_count_positive length :
  PAGE_SIZE < length ->
  exists n,
    Z.to_nat (if negb (length mod PAGE_SIZE =? 0)
              then length / PAGE_SIZE + 1 else length / PAGE_SIZE) = S n.
Proof.
  unfold PAGE_SIZE. intros H.
  assert (1 <= length / 64) by (apply Z.div_le_lower_bound; lia).
  destruct (length mod 64 =? 0); cbn [negb].
  - exists (Z.to_nat (length / 64 - 1)). lia.
  - exists (Z.to_nat (length / 64)). lia.
Qed.

Lemma write_invalid handle fuel address data length cs d :
  invalid_handle handle ->
  exists a dt l,
    cat25256_write fuel handle address data length cs d =
    (Val MEMORY_STATUS_INVALID_HANDLE, d,
     [PageWriteCall a dt l; PageWriteRet MEMORY_STATUS_INVALID_HANDLE]).
Proof.
  intros H. unfold cat25256_write.
  destruct (length <=? PAGE_SIZE) eqn:Hl.
  { rewrite write_page_invalid by exact H. eauto. }
  apply Z.leb_gt in Hl.
  destruct (address mod PAGE_SIZE =? 0).
  - unfold cat25256_write_address_aligned.
    destruct (page_count_positive _ Hl) as [n ->].
    cbn [write_aligned_loop]. unfold bind.
    destruct (0 =? _); rewrite write_page_invalid by exact H; cbn; eauto.
  - unfold cat25256_write_address_unaligned, bind.
    rewrite write_page_invalid by exact H. cbn. eauto.
Qed.

(** C4.  On a handle that is NULL or lacks one of its four capabilities,
    each public operation returns [MEMORY_STATUS_INVALID_HANDLE], leaves the
    device object as it was and calls no capability. *)
Theorem invalid_handle_no_bus_activity handle :
  invalid_handle handle ->
  forall fuel address data length byte cs d,
    cat25256_read handle address data length cs d =
      (Val (MEMORY_STATUS_INVALID_HANDLE, data), d, []) /\
    cat25256_read_register handle byte cs d =
      (Val (MEMORY_STATUS_INVALID_HANDLE, byte), d, []) /\
    cat25256_write_register handle byte cs d =
      (Val MEMORY_STATUS_INVALID_HANDLE, d, []) /\
    (outcome (cat25256_write_page fuel handle address data length cs d) =
       Val MEMORY_STATUS_INVALID_HANDLE /\
     device (cat25256_write_page fuel handle address data length cs d) = d /\
     capability_calls
       (events (cat25256_write_page fuel handle address data length cs d))
     = []) /\
    (outcome (cat25256_write fuel handle address data length cs d) =
       Val MEMORY_STATUS_INVALID_HANDLE /\
     device (cat25256_write fuel handle address data length cs d) = d /\
     capability_calls
       (events (cat25256_write fuel handle address data length cs d))
     = []).
Proof.
  intros H fuel address data length byte cs d.
  pose proof (check_handle_invalid _ H) as Hc.
  split; [unfold cat25256_read; now rewrite Hc|].
  split; [unfold cat25256_read_register; now rewrite Hc|].
  split; [unfold cat25256_write_register; now rewrite Hc|].
  split.
  - rewrite write_page_invalid by exact H. now repeat split.
  - destruct (write_invalid handle fuel address data length cs d H)
      as (a & dt & l & ->).
    now repeat split.
Qed.

End Validation.

(** ** Transaction primitives *)

Section Primitives.

Context {D : Type}.
Implicit Types handle : option (cat25256_handle_t D).

Lemma cs_framed_intro cs rc_en mid rc_dis :
  forallb is_transfer mid = true ->
  cs_framed cs (CsEnable cs rc_en :: mid ++ [CsDisable cs rc_dis]).
Proof. intros H. now exists rc_en, mid, rc_dis. Qed.

Ltac framed :=
  match goal with
  | |- cs_framed _ [CsEnable ?cs ?a; ?x; CsDisable ?cs ?b] =>
      apply (cs_framed_intro cs a [x] b); reflexivity
  | |- cs_framed _ [CsEnable ?cs ?a; ?x; ?y; CsDisable ?cs ?b] =>
      apply (cs_framed_intro cs a [x; y] b); reflexivity
  end.

Lemma atomic_write_latch_framed handle enable cs d :
  cat25256_check_handle handle = MEMORY_STATUS_OK ->
  exists rc d',
    cat25256_atomic_write_latch handle enable cs d =
      (Val rc, d', events (cat25256_atomic_write_latch handle enable cs d)) /\
    cs_framed cs (events (cat25256_atomic_write_latch handle enable cs d)).
Proof.
  intros H. destruct (check_handle_ok_inv _ H) as (rd & wr & en & dis & ->).
  unfold cat25256_atomic_write_latch, bind, call_cs_enable, call_write,
    call_cs_disable, ret, events. cbn.
  destruct (en d cs) as [r1 d1]. destruct (wr d1 [enable]) as [r2 d2].
  destruct (dis d2 cs) as [r3 d3]. cbn.
  exists r2, d3. split; [reflexivity | framed].
Qed.

Lemma atomic_read_framed handle address data length cs d :
  cat25256_check_handle handle = MEMORY_STATUS_OK ->
  exists r d',
    cat25256_atomic_read handle address data length cs d =
      (Val r, d',
       events (cat25256_atomic_read handle address data length cs d)) /\
    cs_framed cs
      (events (cat25256_atomic_read handle address data length cs d)).
Proof.
  intros H. destruct (check_handle_ok_inv _ H) as (rd & wr & en & dis & ->).
  unfold cat25256_atomic_read, bind, call_cs_enable, call_write, call_read,
    call_cs_disable, ret, events. cbn.
  step_calls; eexists _, _; (split; [reflexivity | framed]).
Qed.

Lemma atomic_write_framed handle address data length cs d :
  cat25256_check_handle handle = MEMORY_STATUS_OK ->
  exists rc d',
    cat25256_atomic_write handle address data length cs d =
      (Val rc, d',
       events (cat25256_atomic_write handle address data length cs d)) /\
    cs_framed cs
      (events (cat25256_atomic_write handle address data length cs d)).
Proof.
  intros H. destruct (check_handle_ok_inv _ H) as (rd & wr & en & dis & ->).
  unfold cat25256_atomic_write, bind, call_cs_enable, call_write,
    call_cs_disable, ret, events. cbn.
  step_calls; eexists _, _; (split; [reflexivity | framed]).
Qed.

Lemma read_register_framed handle byte cs d :
  cat25256_check_handle handle = MEMORY_STATUS_OK ->
  exists r d',
    cat25256_read_register handle byte cs d =
      (Val r, d', events (cat25256_read_register handle byte cs d)) /\
    cs_framed cs (events (cat25256_read_register handle byte cs d)).
Proof.
  intros H. destruct (check_handle_ok_inv _ H) as (rd & wr & en & dis & ->).
  unfold cat25256_read_register, bind, call_cs_enable, call_write, call_read,
    call_cs_disable, ret, events. cbn.
  step_calls; eexists _, _; (split; [reflexivity | framed]).
Qed.

Lemma write_register_framed handle byte cs d :
  cat25256_check_handle handle = MEMORY_STATUS_OK ->
  exists rc d',
    cat25256_write_register handle byte cs d =
      (Val rc, d', events (cat25256_write_register handle byte cs d)) /\
    cs_framed cs (events (cat25256_write_register handle byte cs d)).
Proof.
  intros H. destruct (check_handle_ok_inv _ H) as (rd & wr & en & dis & ->).
  unfold cat25256_write_register, bind, call_cs_enable, call_write,
    call_cs_disable, ret, events. cbn.
  step_calls; eexists _, _; (split; [reflexivity | framed]).
Qed.

(** C7.  On a valid handle every transaction primitive returns, and the
    capability calls it made are one chip-select scope: the first is the
    chip-select enable, the last is the chip-select disable of the same
    chip-select, and only byte transfers lie between them.  This holds
    whatever the transfers and the chip-select calls report. *)
Theorem chip_select_always_released handle :
  cat25256_check_handle handle = MEMORY_STATUS_OK ->
  forall address data length byte cs d,
    (outcome (cat25256_atomic_read handle address data length cs d) <> Spin /\
     outcome (cat25256_atomic_read handle address data length cs d) <> Fault /\
     cs_framed cs
       (events (cat25256_atomic_read handle address data length cs d))) /\
    (outcome (cat25256_atomic_write handle address data length cs d) <> Spin /\
     outcome (cat25256_atomic_write handle address data length cs d) <> Fault /\
     cs_framed cs
       (events (cat25256_atomic_write handle address data length cs d))) /\
    (outcome (cat25256_read_register handle byte cs d) <> Spin /\
     outcome (cat25256_read_register handle byte cs d) <> Fault /\
     cs_framed cs (events (cat25256_read_register handle byte cs d))) /\
    (outcome (cat25256_write_register handle byte cs d) <> Spin /\
     outcome (cat25256_write_register handle byte cs d) <> Fault /\
     cs_framed cs (events (cat25256_write_register handle byte cs d))) /\
    (outcome (cat25256_atomic_write_latch_enable handle cs d) <> Spin /\
     outcome (cat25256_atomic_write_latch_enable handle cs d) <> Fault /\
     cs_framed cs (events (cat25256_atomic_write_latch_enable handle cs d))) /\
    (outcome (cat25256_atomic_write_latch_disable handle cs d) <> Spin /\
     outcome (cat25256_atomic_write_latch_disable handle cs d) <> Fault /\
     cs_framed cs (events (cat25256_atomic_write_latch_disable handle cs d))).
Proof.
  intros H address data length byte cs d.
  destruct (atomic_read_framed handle address data length cs d H)
    as (r1 & d1 & E1 & F1).
  destruct (atomic_write_framed handle address data length cs d H)
    as (r2 & d2 & E2 & F2).
  destruct (read_register_framed handle byte cs d H) as (r3 & d3 & E3 & F3).
  destruct (write_register_framed handle byte cs d H) as (r4 & d4 & E4 & F4).
  destruct (atomic_write_latch_framed handle WREN cs d H)
    as (r5 & d5 & E5 & F5).
  destruct (atomic_write_latch_framed handle WRDI cs d H)
    as (r6 & d6 & E6 & F6).
  unfold cat25256_atomic_write_latch_enable,
    cat25256_atomic_write_latch_disable.
  repeat split; try assumption;
    first [ rewrite E1 | rewrite E2 | rewrite E3
          | rewrite E4 | rewrite E5 | rewrite E6 ];
    discriminate.
Qed.

End Primitives.

(** ** The page-write protocol *)

Section PageWrite.

Context {D : Type}.
Implicit Types handle : option (cat25256_handle_t D).

Lemma bus_only_ret {A : Type} (a : A) : bus_only (D := D) (ret a).
Proof. intros d. reflexivity. Qed.

Lemma bus_only_bind {A B : Type} (m : M D A) (k : A -> M D B) :
  bus_only m -> (forall a, bus_only (k a)) -> bus_only (bind m k).
Proof.
  intros Hm Hk d. unfold bind, events. specialize (Hm d).
  destruct (m d) as [[[a| |] d1] e1]; cbn in *; auto.
  specialize (Hk a d1). destruct (k a d1) as [[r d2] e2]. cbn in *.
  rewrite forallb_app. now rewrite Hm, Hk.
Qed.

Lemma bus_only_if {A : Type} (b : bool) (m1 m2 : M D A) :
  bus_only m1 -> bus_only m2 -> bus_only (if b then m1 else m2).
Proof. now destruct b. Qed.

Lemma bus_only_cs_enable handle cs : bus_only (call_cs_enable handle cs).
Proof.
  intros d. destruct handle as [[rd wr [en|] dis]|]; cbn; auto.
  now destruct (en d cs).
Qed.

Lemma bus_only_cs_disable handle cs : bus_only (call_cs_disable handle cs).
Proof.
  intros d. destruct handle as [[rd wr en [dis|]]|]; cbn; auto.
  now destruct (dis d cs).
Qed.

Lemma bus_only_write handle bytes : bus_only (call_write handle bytes).
Proof.
  intros d. destruct handle as [[rd [wr|] en dis]|]; cbn; auto.
  now destruct (wr d bytes).
Qed.

Lemma bus_only_read handle length : bus_only (call_read handle length).
Proof.
  intros d. destruct handle as [[[rd|] wr en dis]|]; cbn; auto.
  now destruct (rd d length) as [[rc bs] d'].
Qed.

Ltac bus_only_tac :=
  repeat first
    [ apply bus_only_ret
    | apply bus_only_cs_enable | apply bus_only_cs_disable
    | apply bus_only_write | apply bus_only_read
    | apply bus_only_if
    | apply bus_only_bind; [| intros ?] ].

Lemma bus_only_write_register handle byte cs :
  bus_only (cat25256_write_register handle byte cs).
Proof. unfold cat25256_write_register. bus_only_tac. Qed.

Lemma bus_only_read_register handle byte cs :
  bus_only (cat25256_read_register handle byte cs).
Proof. unfold cat25256_read_register. bus_only_tac. Qed.

Lemma bus_only_write_latch handle enable cs :
  bus_only (cat25256_atomic_write_latch handle enable cs).
Proof. unfold cat25256_atomic_write_latch. bus_only_tac. Qed.

Lemma bus_only_atomic_write handle address data length cs :
  bus_only (cat25256_atomic_write handle address data length cs).
Proof. unfold cat25256_atomic_write. bus_only_tac. Qed.

Lemma bus_only_wait_loop fuel handle cs wip :
  bus_only (wait_wip_loop fuel handle cs wip).
Proof.
  revert wip. induction fuel as [|fuel IH]; intros wip; cbn.
  - apply bus_only_if; [apply bus_only_ret | intros d; reflexivity].
  - apply bus_only_if; [apply bus_only_ret |].
    apply bus_only_bind; [apply bus_only_read_register | intros r].
    apply bus_only_if; [apply bus_only_ret | apply IH].
Qed.

Lemma bus_only_write_page_body fuel handle address data length cs :
  bus_only (write_page_body fuel handle address data length cs).
Proof.
  unfold write_page_body, cat25256_atomic_write_latch_enable,
    cat25256_atomic_write_latch_disable, cat25256_atomic_wait_wip_completed.
  cbv zeta.
  repeat first
    [ apply bus_only_write_register | apply bus_only_write_latch
    | apply bus_only_atomic_write | apply bus_only_wait_loop
    | apply bus_only_ret | apply bus_only_if
    | apply bus_only_bind; [| intros ?] ].
Qed.

Lemma no_markers evs :
  forallb is_capability_call evs = true ->
  page_events evs = [] /\ page_calls evs = [] /\ capability_calls evs = evs.
Proof.
  induction evs as [|e evs IH]; cbn; [auto|].
  intros H. apply andb_true_iff in H as [He H].
  destruct (IH H) as (I1 & I2 & I3).
  unfold page_events, capability_calls in *. cbn.
  rewrite He. cbn. rewrite I1, I3.
  destruct e; try discriminate He; cbn; auto.
Qed.

Lemma page_events_app e1 e2 :
  page_events (e1 ++ e2) = page_events e1 ++ page_events e2.
Proof. apply filter_app. Qed.

Lemma page_events_call address data length evs :
  page_events (PageWriteCall address data length :: evs) =
  PageWriteCall address data length :: page_events evs.
Proof. reflexivity. Qed.

Lemma page_calls_call address data length evs :
  page_calls (PageWriteCall address data length :: evs) =
  (address, data, length) :: page_calls evs.
Proof. reflexivity. Qed.

Lemma page_calls_app e1 e2 :
  page_calls (e1 ++ e2) = page_calls e1 ++ page_calls e2.
Proof. apply flat_map_app. Qed.

(** How [cat25256_write_page] wraps its body between the two markers. *)
Lemma write_page_unfold fuel handle address data length cs d :
  cat25256_write_page fuel handle address data length cs d =
  match write_page_body fuel handle address data length cs d with
  | (Val rc, d', e) =>
      (Val rc, d', PageWriteCall address data length :: e ++ [PageWriteRet rc])
  | (Spin, d', e) => (Spin, d', PageWriteCall address data length :: e)
  | (Fault, d', e) => (Fault, d', PageWriteCall address data length :: e)
  end.
Proof.
  unfold cat25256_write_page, bind, emit, ret.
  destruct (write_page_body _ _ _ _ _ _ _) as [[[rc| |] d'] e]; reflexivity.
Qed.

Lemma write_page_calls fuel handle address data length cs d :
  page_calls
    (events (cat25256_write_page fuel handle address data length cs d))
  = [(address, data, length)].
Proof.
  rewrite write_page_unfold.
  pose proof (bus_only_write_page_body fuel handle address data length cs d)
    as Hb.
  unfold events in Hb. unfold events.
  destruct (write_page_body _ _ _ _ _ _ _) as [[[rc| |] d'] e];
    cbn [fst snd] in *; destruct (no_markers _ Hb) as (_ & P2 & _);
    rewrite page_calls_call, ?page_calls_app, P2; reflexivity.
Qed.

(** C3.  A write of at most one page size is exactly the one call
    [cat25256_write_page] with the caller's address, data and length,
    whatever the alignment of the address: the only page-write started
    covers the whole range. *)
Theorem small_write_is_one_page_write fuel handle address data length cs d :
  length <= PAGE_SIZE ->
  cat25256_write fuel handle address data length cs d =
    cat25256_write_page fuel handle address data length cs d /\
  page_calls (events (cat25256_write fuel handle address data length cs d))
    = [(address, data, length)].
Proof.
  intros H. apply Z.leb_le in H.
  assert (E : cat25256_write fuel handle address data length cs d =
              cat25256_write_page fuel handle address data length cs d)
    by (unfold cat25256_write; now rewrite H).
  split; [exact E|]. rewrite E. apply write_page_calls.
Qed.

End PageWrite.

(** ** Failure handling inside a page-write *)

Section PageWriteFailures.

Context {D : Type}.
Implicit Types handle : option (cat25256_handle_t D).

Lemma outcome_run {A : Type} (r : res A) (d : D) (e : list event) :
  outcome (r, d, e) = r.
Proof. reflexivity. Qed.

Lemma events_run {A : Type} (r : res A) (d : D) (e : list event) :
  events (r, d, e) = e.
Proof. reflexivity. Qed.

Lemma bind_val {A B : Type} (m : M D A) (k : A -> M D B) d a d1 e1 :
  m d = (Val a, d1, e1) ->
  bind m k d = (outcome (k a d1), device (k a d1), e1 ++ events (k a d1)).
Proof.
  intros H. unfold bind, outcome, device, events. rewrite H.
  now destruct (k a d1) as [[r d2] e2].
Qed.

Lemma bind_spin {A B : Type} (m : M D A) (k : A -> M D B) d d1 e1 :
  m d = (Spin, d1, e1) -> bind m k d = (Spin, d1, e1).
Proof. intros H. unfold bind. now rewrite H. Qed.

(** The three calls of a latch command. *)
Lemma write_latch_run handle enable cs d :
  cat25256_check_handle handle = MEMORY_STATUS_OK ->
  exists rc_en rc rc_dis d',
    cat25256_atomic_write_latch handle enable cs d =
    (Val rc, d',
     [CsEnable cs rc_en; BusWrite [enable] rc; CsDisable cs rc_dis]).
Proof.
  intros H. destruct (check_handle_ok_inv _ H) as (rd & wr & en & dis & ->).
  unfold cat25256_atomic_write_latch, bind, call_cs_enable, call_write,
    call_cs_disable, ret. cbn.
  destruct (en d cs) as [r1 d1]. destruct (wr d1 [enable]) as [r2 d2].
  destruct (dis d2 cs) as [r3 d3]. cbn. now exists r1, r2, r3, d3.
Qed.

(** The three calls of a status-register write. *)
Lemma write_register_run handle byte cs d :
  cat25256_check_handle handle = MEMORY_STATUS_OK ->
  exists rc_en rc rc_dis d',
    cat25256_write_register handle byte cs d =
    (Val rc, d',
     [CsEnable cs rc_en; BusWrite [WRSR; byte] rc; CsDisable cs rc_dis]).
Proof.
  intros H. unfold cat25256_write_register. rewrite H. cbn [is_ok negb].
  destruct (check_handle_ok_inv _ H) as (rd & wr & en & dis & ->).
  unfold bind, call_cs_enable, call_write, call_cs_disable, ret. cbn.
  destruct (en d cs) as [r1 d1]. destruct (wr d1 [WRSR; byte]) as [r2 d2].
  destruct (dis d2 cs) as [r3 d3]. cbn. now exists r1, r2, r3, d3.
Qed.

(** The calls of a write transaction: the payload is sent only after the
    header went through. *)
Lemma atomic_write_run handle address data length cs d :
  cat25256_check_handle handle = MEMORY_STATUS_OK ->
  exists rc_en rc_dis d',
    (exists rch,
       rch <> MEMORY_STATUS_OK /\
       cat25256_atomic_write handle address data length cs d =
       (Val MEMORY_STATUS_NOK, d',
        [CsEnable cs rc_en;
         BusWrite [WRITE; u8 (Z.shiftr address 8); u8 address] rch;
         CsDisable cs rc_dis])) \/
    (exists rc,
       cat25256_atomic_write handle address data length cs d =
       (Val rc, d',
        [CsEnable cs rc_en;
         BusWrite [WRITE; u8 (Z.shiftr address 8); u8 address]
           MEMORY_STATUS_OK;
         BusWrite (firstn (Z.to_nat length) data) rc;
         CsDisable cs rc_dis])).
Proof.
  intros H.
  destruct (check_handle_ok_inv _ H) as (rd & wr & en & dis & ->).
  unfold cat25256_atomic_write, bind, call_cs_enable, call_write,
    call_cs_disable, ret.
  cbn [cs_enable write cs_disable].
  destruct (en d cs) as [r1 d1].
  destruct (wr d1 [WRITE; u8 (Z.shiftr address 8); u8 address]) as [r2 d2].
  destruct r2; cbn [is_ok negb].
  - destruct (wr d2 (firstn (Z.to_nat length) data)) as [r3 d3].
    destruct (dis d3 cs) as [r4 d4].
    exists r1, r4, d4. right. now exists r3.
  - destruct (dis d2 cs) as [r4 d4].
    exists r1, r4, d4. left. exists MEMORY_STATUS_NOK. now split.
  - destruct (dis d2 cs) as [r4 d4].
    exists r1, r4, d4. left. exists MEMORY_STATUS_INVALID_HANDLE. now split.
Qed.

Lemma write_register_ok_valid handle byte cs d d1 e1 :
  cat25256_write_register handle byte cs d = (Val MEMORY_STATUS_OK, d1, e1) ->
  cat25256_check_handle handle = MEMORY_STATUS_OK.
Proof.
  unfold cat25256_write_register.
  destruct (check_handle_cases handle) as [-> | ->]; [reflexivity|].
  cbn. discriminate.
Qed.

(** C5.  When the status-register write and the latch enable went through
    and the write transaction then fails (header or payload), the page-write
    goes on with the latch disable and nothing else: the calls after the
    transaction are exactly the chip-select enable, the WRDI byte and the
    chip-select disable; the status register is never read; the result is
    [MEMORY_STATUS_NOK]. *)
Theorem failed_write_transaction_cleanup
  fuel handle address data length cs d d1 e1 d2 e2 r3 d3 e3 :
  cat25256_write_register handle NREADY cs d = (Val MEMORY_STATUS_OK, d1, e1) ->
  cat25256_atomic_write_latch_enable handle cs d1
    = (Val MEMORY_STATUS_OK, d2, e2) ->
  cat25256_atomic_write handle address data length cs d2 = (Val r3, d3, e3) ->
  r3 <> MEMORY_STATUS_OK ->
  exists rc_en rc_w rc_dis d4,
    cat25256_atomic_write_latch_disable handle cs d3 =
      (Val rc_w, d4,
       [CsEnable cs rc_en; BusWrite [WRDI] rc_w; CsDisable cs rc_dis]) /\
    cat25256_write_page fuel handle address data length cs d =
      (Val MEMORY_STATUS_NOK, d4,
       PageWriteCall address data length
         :: e1 ++ e2 ++ e3
         ++ [CsEnable cs rc_en; BusWrite [WRDI] rc_w; CsDisable cs rc_dis;
             PageWriteRet MEMORY_STATUS_NOK]) /\
    existsb is_bus_read
      (events (cat25256_write_page fuel handle address data length cs d))
      = false.
Proof.
  intros H1 H2 H3 Hr3.
  pose proof (write_register_ok_valid _ _ _ _ _ _ H1) as Hc.
  destruct (write_latch_run handle WRDI cs d3 Hc)
    as (rc_en & rc_w & rc_dis & d4 & H4).
  exists rc_en, rc_w, rc_dis, d4.
  assert (E : cat25256_write_page fuel handle address data length cs d =
      (Val MEMORY_STATUS_NOK, d4,
       PageWriteCall address data length
         :: e1 ++ e2 ++ e3
         ++ [CsEnable cs rc_en; BusWrite [WRDI] rc_w; CsDisable cs rc_dis;
             PageWriteRet MEMORY_STATUS_NOK])).
  { rewrite write_page_unfold. unfold write_page_body.
    rewrite Hc. cbn [is_ok negb].
    rewrite (bind_val _ _ _ _ _ _ H1). cbn [is_ok negb].
    rewrite (bind_val _ _ _ _ _ _ H2). cbn [is_ok negb].
    rewrite (bind_val _ _ _ _ _ _ H3).
    assert (is_ok r3 = false) as -> by (destruct r3; cbn; congruence).
    cbn [negb]. unfold cat25256_atomic_write_latch_disable in *.
    rewrite (bind_val _ _ _ _ _ _ H4).
    unfold ret, outcome, device, events. cbn [fst snd].
    rewrite app_nil_r, <- !app_assoc. reflexivity. }
  split; [exact H4|]. split; [exact E|].
  rewrite E. unfold events. cbn [snd existsb is_bus_read orb].
  rewrite !existsb_app.
  destruct (write_register_run handle NREADY cs d Hc)
    as (a1 & a2 & a3 & a4 & R1).
  destruct (write_latch_run handle WREN cs d1 Hc)
    as (b1 & b2 & b3 & b4 & R2).
  unfold cat25256_atomic_write_latch_enable in H2.
  rewrite R1 in H1. rewrite R2 in H2.
  injection H1 as _ _ <-. injection H2 as _ _ <-.
  destruct (atomic_write_run handle address data length cs d2 Hc)
    as (c1 & c2 & c3 & [(rch & _ & R3) | (rc & R3)]);
    rewrite R3 in H3; injection H3 as _ _ <-; reflexivity.
Qed.

(** C8.  When the status-register write, the latch enable and the write
    transaction went through, the status [rl] of the latch disable does not
    enter the result: the page-write returns [MEMORY_STATUS_OK] exactly when
    the busy-wait that follows does, and [MEMORY_STATUS_NOK] when the
    busy-wait fails. *)
Theorem latch_disable_status_ignored
  fuel handle address data length cs d d1 e1 d2 e2 d3 e3 rl d4 e4 :
  cat25256_write_register handle NREADY cs d = (Val MEMORY_STATUS_OK, d1, e1) ->
  cat25256_atomic_write_latch_enable handle cs d1
    = (Val MEMORY_STATUS_OK, d2, e2) ->
  cat25256_atomic_write handle address data length cs d2
    = (Val MEMORY_STATUS_OK, d3, e3) ->
  cat25256_atomic_write_latch_disable handle cs d3 = (Val rl, d4, e4) ->
  outcome (cat25256_write_page fuel handle address data length cs d) =
    match outcome (cat25256_atomic_wait_wip_completed fuel handle cs d4) with
    | Val MEMORY_STATUS_OK => Val MEMORY_STATUS_OK
    | Val _ => Val MEMORY_STATUS_NOK
    | Spin => Spin
    | Fault => Fault
    end /\
  device (cat25256_write_page fuel handle address data length cs d) =
    device (cat25256_atomic_wait_wip_completed fuel handle cs d4).
Proof.
  intros H1 H2 H3 H4.
  pose proof (write_register_ok_valid _ _ _ _ _ _ H1) as Hc.
  rewrite write_page_unfold. unfold write_page_body.
  rewrite Hc. cbn [is_ok negb].
  rewrite (bind_val _ _ _ _ _ _ H1). cbn [is_ok negb].
  rewrite (bind_val _ _ _ _ _ _ H2). cbn [is_ok negb].
  rewrite (bind_val _ _ _ _ _ _ H3). cbn [is_ok negb].
  rewrite (bind_val _ _ _ _ _ _ H4).
  unfold bind, outcome, device, events.
  destruct (cat25256_atomic_wait_wip_completed fuel handle cs d4)
    as [[[r5| |] d5] e5]; cbn; [destruct r5|..]; cbn; auto.
Qed.

End PageWriteFailures.

(** ** The splitter stops at the first failing page-write *)

Section Splitter.

Context {D : Type}.
Implicit Types handle : option (cat25256_handle_t D).

Lemma no_fault_ret {A : Type} (a : A) : no_fault (D := D) (ret a).
Proof. intros d. discriminate. Qed.

Lemma no_fault_bind {A B : Type} (m : M D A) (k : A -> M D B) :
  no_fault m -> (forall a, no_fault (k a)) -> no_fault (bind m k).
Proof.
  intros Hm Hk d. unfold bind, outcome. specialize (Hm d).
  destruct (m d) as [[[a| |] d1] e1]; cbn in *; try discriminate; auto.
  specialize (Hk a d1). now destruct (k a d1) as [[r d2] e2].
Qed.

Lemma no_fault_if {A : Type} (b : bool) (m1 m2 : M D A) :
  no_fault m1 -> no_fault m2 -> no_fault (if b then m1 else m2).
Proof. now destruct b. Qed.

Section ValidHandle.

Variables (rd : D -> Z -> memory_status_t * list Z * D)
          (wr : D -> list Z -> memory_status_t * D)
          (en dis : D -> Z -> memory_status_t * D).

Local Abbreviation valid :=
  (Some {| read := Some rd; write := Some wr;
           cs_enable := Some en; cs_disable := Some dis |}).

Lemma no_fault_cs_enable cs : no_fault (call_cs_enable valid cs).
Proof. intros d. cbn. now destruct (en d cs). Qed.

Lemma no_fault_cs_disable cs : no_fault (call_cs_disable valid cs).
Proof. intros d. cbn. now destruct (dis d cs). Qed.

Lemma no_fault_call_write bytes : no_fault (call_write valid bytes).
Proof. intros d. cbn. now destruct (wr d bytes). Qed.

Lemma no_fault_call_read length : no_fault (call_read valid length).
Proof. intros d. cbn. now destruct (rd d length) as [[rc bs] d']. Qed.

Ltac no_fault_tac :=
  cbv zeta;
  repeat first
    [ apply no_fault_cs_enable | apply no_fault_cs_disable
    | apply no_fault_call_write | apply no_fault_call_read
    | apply no_fault_ret | apply no_fault_if
    | apply no_fault_bind; [| intros ?] ].

Lemma no_fault_read_register_valid byte cs :
  no_fault (cat25256_read_register valid byte cs).
Proof. unfold cat25256_read_register. no_fault_tac. Qed.

Lemma no_fault_write_register_valid byte cs :
  no_fault (cat25256_write_register valid byte cs).
Proof. unfold cat25256_write_register. no_fault_tac. Qed.

Lemma no_fault_write_latch_valid enable cs :
  no_fault (cat25256_atomic_write_latch valid enable cs).
Proof. unfold cat25256_atomic_write_latch. no_fault_tac. Qed.

Lemma no_fault_atomic_write_valid address data length cs :
  no_fault (cat25256_atomic_write valid address data length cs).
Proof. unfold cat25256_atomic_write. no_fault_tac. Qed.

Lemma no_fault_wait_loop_valid fuel cs wip :
  no_fault (wait_wip_loop fuel valid cs wip).
Proof.
  revert wip. induction fuel as [|fuel IH]; intros wip; cbn [wait_wip_loop].
  - apply no_fault_if; [apply no_fault_ret | intros d; discriminate].
  - apply no_fault_if; [apply no_fault_ret |].
    apply no_fault_bind; [apply no_fault_read_register_valid | intros r].
    apply no_fault_if; [apply no_fault_ret | apply IH].
Qed.

Lemma no_fault_write_page_body_valid fuel address data length cs :
  no_fault (write_page_body fuel valid address data length cs).
Proof.
  unfold write_page_body, cat25256_atomic_write_latch_enable,
    cat25256_atomic_write_latch_disable, cat25256_atomic_wait_wip_completed.
  cbv zeta.
  repeat first
    [ apply no_fault_write_register_valid | apply no_fault_write_latch_valid
    | apply no_fault_atomic_write_valid | apply no_fault_wait_loop_valid
    | apply no_fault_ret | apply no_fault_if
    | apply no_fault_bind; [| intros ?] ].
Qed.

End ValidHandle.

(** The page-write checks the handle before it calls anything. *)
Lemma no_fault_write_page_body fuel handle address data length cs :
  no_fault (write_page_body fuel handle address data length cs).
Proof.
  destruct (check_handle_cases handle) as [H | H].
  - destruct (check_handle_ok_inv _ H) as (rd & wr & en & dis & ->).
    apply no_fault_write_page_body_valid.
  - intros d. unfold write_page_body. rewrite H. discriminate.
Qed.

(** One page-write: the call marker, capability calls, and the return
    marker unless the busy-wait was still running. *)
Lemma write_page_result fuel handle address data length cs d :
  exists d' e,
    forallb is_capability_call e = true /\
    ((exists rc,
        cat25256_write_page fuel handle address data length cs d =
        (Val rc, d',
         PageWriteCall address data length :: e ++ [PageWriteRet rc])) \/
     cat25256_write_page fuel handle address data length cs d =
     (Spin, d', PageWriteCall address data length :: e)).
Proof.
  rewrite write_page_unfold.
  pose proof (bus_only_write_page_body fuel handle address data length cs d)
    as Hb.
  pose proof (no_fault_write_page_body fuel handle address data length cs d)
    as Hf.
  unfold events in Hb. unfold outcome in Hf.
  destruct (write_page_body _ _ _ _ _ _ _) as [[[rc| |] d'] e];
    cbn [fst snd] in *.
  - exists d', e. split; [exact Hb|]. left. now exists rc.
  - exists d', e. split; [exact Hb|]. now right.
  - now contradiction Hf.
Qed.

Lemma ok_pages_app c1 c2 : ok_pages (c1 ++ c2) = ok_pages c1 ++ ok_pages c2.
Proof. apply flat_map_app. Qed.

Lemma stops_after_ok c r pevs :
  stops_at_first_failure r pevs ->
  stops_at_first_failure r (ok_pages [c] ++ pevs).
Proof.
  intros (done & a & dt & l & H). exists (c :: done), a, dt, l.
  destruct r as [rc| |]; [| |exact H]; rewrite H; reflexivity.
Qed.

Lemma all_ok_stops done :
  done <> [] ->
  stops_at_first_failure (Val MEMORY_STATUS_OK) (ok_pages done).
Proof.
  intros H. destruct (exists_last H) as (done' & [[a dt] l] & ->).
  exists done', a, dt, l. now rewrite ok_pages_app.
Qed.

Lemma one_page_stops fuel handle address data length cs d :
  stops_at_first_failure
    (outcome (cat25256_write_page fuel handle address data length cs d))
    (page_events
       (events (cat25256_write_page fuel handle address data length cs d))).
Proof.
  destruct (write_page_result fuel handle address data length cs d)
    as (d' & e & He & [(rc & ->) | ->]);
    destruct (no_markers _ He) as (P & _ & _);
    unfold outcome, events; cbn [fst snd];
    rewrite page_events_call, ?page_events_app, P;
    exists [], address, data, length; reflexivity.
Qed.

(** The loop either ran all its [n] page-writes, each returning
    [MEMORY_STATUS_OK], or stopped at the first one that did not. *)
Lemma write_aligned_loop_stops fuel handle address data length cs pc n :
  forall i d,
    let x := write_aligned_loop fuel handle address data length cs pc n i d in
    (outcome x = Val MEMORY_STATUS_OK /\
     exists done,
       List.length done = n /\ page_events (events x) = ok_pages done) \/
    (outcome x <> Val MEMORY_STATUS_OK /\
     stops_at_first_failure (outcome x) (page_events (events x))).
Proof.
  induction n as [|n IH]; intros i d x; subst x.
  - left. split; [reflexivity|]. now exists [].
  - cbn [write_aligned_loop].
    set (a := u32 (address + int32 (i * PAGE_SIZE))).
    set (dt := skipn (Z.to_nat (int32 (i * PAGE_SIZE))) data).
    assert (E : (if i =? pc - 1
                 then cat25256_write_page fuel handle a dt
                        (length mod PAGE_SIZE) cs
                 else cat25256_write_page fuel handle a dt PAGE_SIZE cs)
                = cat25256_write_page fuel handle a dt
                    (if i =? pc - 1 then length mod PAGE_SIZE else PAGE_SIZE)
                    cs)
      by now destruct (i =? pc - 1).
    rewrite E. clear E.
    set (l := if i =? pc - 1 then length mod PAGE_SIZE else PAGE_SIZE).
    destruct (write_page_result fuel handle a dt l cs d)
      as (d1 & e & He & [(rc & Hw) | Hw]);
      destruct (no_markers _ He) as (P & _ & _).
    + rewrite (bind_val _ _ _ _ _ _ Hw).
      destruct rc; cbn [is_ok negb].
      * specialize (IH (i + 1) d1). cbv zeta in IH.
        unfold outcome, events in *. cbn [fst snd].
        rewrite page_events_app, page_events_call, page_events_app, P.
        change (page_events [PageWriteRet MEMORY_STATUS_OK])
          with [PageWriteRet MEMORY_STATUS_OK].
        cbn [app].
        change (PageWriteCall a dt l :: PageWriteRet MEMORY_STATUS_OK :: ?t)
          with (ok_pages [(a, dt, l)] ++ t).
        destruct IH as [(Ho & done & Hl & Hp) | (Ho & Hs)].
        -- left. split; [exact Ho|]. exists ((a, dt, l) :: done).
           split; [cbn; now rewrite Hl|]. now rewrite Hp.
        -- right. split; [exact Ho|]. now apply stops_after_ok.
      * right. unfold outcome, events, ret. cbn [fst snd].
        split; [discriminate|]. rewrite app_nil_r.
        rewrite page_events_call, page_events_app, P.
        now exists [], a, dt, l.
      * right. unfold outcome, events, ret. cbn [fst snd].
        split; [discriminate|]. rewrite app_nil_r.
        rewrite page_events_call, page_events_app, P.
        now exists [], a, dt, l.
    + rewrite (bind_spin _ _ _ _ _ Hw). right.
      unfold outcome, events. cbn [fst snd]. split; [discriminate|].
      rewrite page_events_call, P. now exists [], a, dt, l.
Qed.

Lemma write_address_aligned_stops fuel handle address data length cs d :
  let x := cat25256_write_address_aligned fuel handle address data length cs d
  in
  (outcome x = Val MEMORY_STATUS_OK /\
   exists done, page_events (events x) = ok_pages done /\
     (PAGE_SIZE < length -> done <> [])) \/
  (outcome x <> Val MEMORY_STATUS_OK /\
   stops_at_first_failure (outcome x) (page_events (events x))).
Proof.
  unfold cat25256_write_address_aligned. cbv zeta.
  match goal with
  | |- context [write_aligned_loop _ _ _ _ _ _ ?pc ?n ?i ?d] =>
      destruct (write_aligned_loop_stops fuel handle address data length cs
                  pc n i d) as [(Ho & done & Hl & Hp) | H]
  end.
  - left. split; [exact Ho|]. exists done. split; [exact Hp|].
    intros Hlen. destruct (page_count_positive _ Hlen) as [m Hm].
    rewrite Hm in Hl. intros ->. discriminate Hl.
  - now right.
Qed.

(** C6.  In every run of [cat25256_write] the page-writes follow one
    another: each page-write but the last has returned
    [MEMORY_STATUS_OK] before the next is called, and the status of the last
    page-write is the status of the whole operation.  So a page-write that
    fails is the last one called and its status is what the caller gets;
    nothing is undone. *)
Theorem write_stops_at_first_failing_page
  fuel handle address data length cs d :
  stops_at_first_failure
    (outcome (cat25256_write fuel handle address data length cs d))
    (page_events
       (events (cat25256_write fuel handle address data length cs d))).
Proof.
  unfold cat25256_write.
  destruct (length <=? PAGE_SIZE) eqn:Hl; [apply one_page_stops|].
  apply Z.leb_gt in Hl.
  destruct (address mod PAGE_SIZE =? 0).
  - destruct (write_address_aligned_stops fuel handle address data length cs d)
      as [(Ho & done & Hp & Hne) | (_ & H)]; [|exact H].
    rewrite Ho, Hp. apply all_ok_stops. now apply Hne.
  - unfold cat25256_write_address_unaligned. cbv zeta.
    set (lft := if PAGE_SIZE - address mod PAGE_SIZE >? length
                then length else PAGE_SIZE - address mod PAGE_SIZE).
    destruct (write_page_result fuel handle address data lft cs d)
      as (d1 & e & He & [(rc & Hw) | Hw]);
      destruct (no_markers _ He) as (P & _ & _).
    + rewrite (bind_val _ _ _ _ _ _ Hw).
      destruct rc; cbn [is_ok negb].
      * rewrite outcome_run, events_run.
        rewrite page_events_app, page_events_call, page_events_app, P.
        change (page_events [PageWriteRet MEMORY_STATUS_OK])
          with [PageWriteRet MEMORY_STATUS_OK].
        cbn [app].
        change (PageWriteCall address data lft
                  :: PageWriteRet MEMORY_STATUS_OK :: ?t)
          with (ok_pages [(address, data, lft)] ++ t).
        destruct (int32 (length - lft) >? 0).
        -- match goal with
           | |- context [cat25256_write_address_aligned _ _ ?a ?dt ?l _ _] =>
               destruct (write_address_aligned_stops fuel handle a dt l cs d1)
                 as [(Ho & done & Hp & _) | (_ & H)]
           end.
           ++ rewrite Ho, Hp, <- ok_pages_app. now apply all_ok_stops.
           ++ now apply stops_after_ok.
        -- unfold ret, outcome, events. cbn [fst snd page_events filter].
           rewrite app_nil_r. now apply all_ok_stops.
      * unfold outcome, events, ret. cbn [fst snd]. rewrite app_nil_r.
        rewrite page_events_call, page_events_app, P.
        now exists [], address, data, lft.
      * unfold outcome, events, ret. cbn [fst snd]. rewrite app_nil_r.
        rewrite page_events_call, page_events_app, P.
        now exists [], address, data, lft.
    + rewrite (bind_spin _ _ _ _ _ Hw).
      unfold outcome, events. cbn [fst snd].
      rewrite page_events_call, P. now exists [], address, data, lft.
Qed.

End Splitter.

(** ** The busy-wait *)

Section BusyWait.

Context {D : Type}.
Implicit Types handle : option (cat25256_handle_t D).

(** The calls of a status-register read. *)
Lemma read_register_run handle byte cs d :
  cat25256_check_handle handle = MEMORY_STATUS_OK ->
  exists rc_en rc_dis d',
    (exists rcw,
       rcw <> MEMORY_STATUS_OK /\
       cat25256_read_register handle byte cs d =
       (Val (MEMORY_STATUS_NOK, byte), d',
        [CsEnable cs rc_en; BusWrite [RDSR] rcw; CsDisable cs rc_dis])) \/
    (exists rc bytes,
       cat25256_read_register handle byte cs d =
       (Val (rc, hd byte bytes), d',
        [CsEnable cs rc_en; BusWrite [RDSR] MEMORY_STATUS_OK;
         BusRead 1 bytes rc; CsDisable cs rc_dis])).
Proof.
  intros H. unfold cat25256_read_register. rewrite H. cbn [is_ok negb].
  destruct (check_handle_ok_inv _ H) as (rd & wr & en & dis & ->).
  unfold bind, call_cs_enable, call_write, call_read, call_cs_disable, ret.
  cbn [cs_enable write cs_disable read].
  destruct (en d cs) as [r1 d1].
  destruct (wr d1 [RDSR]) as [r2 d2].
  destruct r2; cbn [is_ok negb].
  - destruct (rd d2 1) as [[r3 bytes] d3].
    destruct (dis d3 cs) as [r4 d4].
    exists r1, r4, d4. right. now exists r3, bytes.
  - destruct (dis d2 cs) as [r4 d4].
    exists r1, r4, d4. left. exists MEMORY_STATUS_NOK. now split.
  - destruct (dis d2 cs) as [r4 d4].
    exists r1, r4, d4. left. exists MEMORY_STATUS_INVALID_HANDLE. now split.
Qed.

Lemma read_register_returns handle byte cs d :
  exists r d' e, cat25256_read_register handle byte cs d = (Val r, d', e).
Proof.
  destruct (check_handle_cases handle) as [H | H].
  - destruct (read_register_framed handle byte cs d H) as (r & d' & E & _).
    eauto.
  - unfold cat25256_read_register. rewrite H. cbn. unfold ret. eauto.
Qed.

Lemma wait_loop_ready fuel handle cs wip d :
  Z.land wip NREADY = 0 ->
  wait_wip_loop fuel handle cs wip d = (Val MEMORY_STATUS_OK, d, []).
Proof.
  intros H. destruct fuel; cbn [wait_wip_loop]; rewrite H; reflexivity.
Qed.

Lemma wait_loop_forward fuel handle cs :
  forall wip d,
    Z.land wip NREADY <> 0 ->
    match outcome (wait_wip_loop fuel handle cs wip d) with
    | Val rc => exists n, (n < fuel)%nat /\ stops_at_poll n handle cs wip d rc
    | Spin =>
        List.length (polls fuel handle cs wip d) = fuel /\
        forallb still_busy (polls fuel handle cs wip d) = true
    | Fault => False
    end.
Proof.
  induction fuel as [|fuel IH]; intros wip d Hw;
    cbn [wait_wip_loop]; apply Z.eqb_neq in Hw; rewrite Hw.
  - cbn. auto.
  - destruct (read_register_returns handle wip cs d) as (r & d' & e & Hr).
    rewrite (bind_val _ _ _ _ _ _ Hr), outcome_run.
    cbn [polls]. rewrite Hr.
    destruct (is_ok (fst r)) eqn:Hok; cbn [negb].
    + destruct (Z.land (snd r) NREADY =? 0) eqn:Hb.
      * apply Z.eqb_eq in Hb. rewrite (wait_loop_ready _ _ _ _ _ Hb).
        rewrite outcome_run. exists 0%nat. split; [lia|].
        exists [], r. cbn [polls app List.length forallb].
        rewrite Hr. unfold still_busy. rewrite Hok, Hb, Z.eqb_refl.
        repeat split; reflexivity.
      * apply Z.eqb_neq in Hb. specialize (IH (snd r) d' Hb).
        assert (Hs : still_busy r = true).
        { unfold still_busy. rewrite Hok. apply Z.eqb_neq in Hb.
          now rewrite Hb. }
        destruct (outcome (wait_wip_loop fuel handle cs (snd r) d'))
          as [rc| |]; [| |exact IH].
        -- destruct IH as (n & Hn & before & last & Hp & Hl & Hf & Hs' & Hrc).
           exists (S n). split; [lia|].
           exists (r :: before), last.
           change (polls (S (S n)) handle cs wip d)
             with (match cat25256_read_register handle wip cs d with
                   | (Val r, d', _) => r :: polls (S n) handle cs (snd r) d'
                   | _ => []
                   end).
           rewrite Hr, Hp. cbn [List.length forallb]. rewrite Hs, Hl, Hf.
           repeat split; assumption.
        -- destruct IH as (Hl & Hf). cbn [List.length forallb].
           rewrite Hs, Hl, Hf. split; reflexivity.
    + unfold ret. rewrite outcome_run. exists 0%nat. split; [lia|].
      exists [], r. cbn [polls app List.length forallb].
      rewrite Hr. unfold still_busy. rewrite Hok.
      repeat split; reflexivity.
Qed.

Lemma wait_loop_backward n handle cs :
  forall wip d rc fuel,
    Z.land wip NREADY <> 0 ->
    stops_at_poll n handle cs wip d rc ->
    (n < fuel)%nat ->
    outcome (wait_wip_loop fuel handle cs wip d) = Val rc.
Proof.
  induction n as [|n IH];
    intros wip d rc fuel Hw (before & last & Hp & Hl & Hf & Hs & Hrc) Hn;
    (destruct fuel as [|fuel]; [lia|]);
    cbn [wait_wip_loop]; apply Z.eqb_neq in Hw; rewrite Hw;
    destruct (read_register_returns handle wip cs d) as (r & d' & e & Hr);
    rewrite (bind_val _ _ _ _ _ _ Hr), outcome_run;
    cbn [polls] in Hp; rewrite Hr in Hp.
  - destruct before as [|b before]; [|discriminate Hl].
    cbn [app] in Hp. injection Hp as <-.
    unfold still_busy in Hs.
    destruct (is_ok (fst r)); cbn [negb andb] in *.
    + apply negb_false_iff, Z.eqb_eq in Hs.
      now rewrite (wait_loop_ready _ _ _ _ _ Hs), outcome_run, Hrc.
    + unfold ret. now rewrite outcome_run, Hrc.
  - destruct before as [|b before]; [discriminate Hl|].
    cbn [app] in Hp. injection Hp as <- Hp.
    cbn [forallb List.length] in Hf, Hl.
    apply andb_true_iff in Hf as [Hb Hf].
    unfold still_busy in Hb. apply andb_true_iff in Hb as [Hok Hb].
    rewrite Hok. cbn [negb].
    apply negb_true_iff, Z.eqb_neq in Hb.
    apply (IH (snd r) d' rc fuel Hb); [|lia].
    exists before, last. repeat split; try assumption. lia.
Qed.

Lemma stuck_spins fuel cs wip :
  Z.land wip NREADY <> 0 ->
  outcome (wait_wip_loop fuel (Some stuck_handle) cs wip tt) = Spin.
Proof.
  revert wip. induction fuel as [|fuel IH]; intros wip Hw;
    cbn [wait_wip_loop]; apply Z.eqb_neq in Hw; rewrite Hw; [reflexivity|].
  assert (Hr : cat25256_read_register (Some stuck_handle) wip cs tt =
               (Val (MEMORY_STATUS_OK, 1), tt,
                [CsEnable cs MEMORY_STATUS_OK;
                 BusWrite [RDSR] MEMORY_STATUS_OK;
                 BusRead 1 [1] MEMORY_STATUS_OK;
                 CsDisable cs MEMORY_STATUS_OK])) by reflexivity.
  rewrite (bind_val _ _ _ _ _ _ Hr), outcome_run. cbn [fst snd is_ok negb].
  apply IH. discriminate.
Qed.

Lemma bench_busy_then_ready cs busy :
  forall w wip,
    Z.land wip NREADY <> 0 ->
    outcome (wait_wip_loop busy (Some (bench_handle None MEMORY_STATUS_OK)) cs
               wip {| writes_seen := w; busy_reads := busy |}) = Spin /\
    outcome (wait_wip_loop (S busy)
               (Some (bench_handle None MEMORY_STATUS_OK)) cs
               wip {| writes_seen := w; busy_reads := busy |})
      = Val MEMORY_STATUS_OK.
Proof.
  induction busy as [|busy IH]; intros w wip Hw.
  - split; cbn [wait_wip_loop]; apply Z.eqb_neq in Hw; rewrite Hw;
      reflexivity.
  - assert (Hr : cat25256_read_register
                   (Some (bench_handle None MEMORY_STATUS_OK)) wip cs
                   {| writes_seen := w; busy_reads := S busy |} =
                 (Val (MEMORY_STATUS_OK, 1),
                  {| writes_seen := S w; busy_reads := busy |},
                  [CsEnable cs MEMORY_STATUS_OK;
                   BusWrite [RDSR] MEMORY_STATUS_OK;
                   BusRead 1 [1] MEMORY_STATUS_OK;
                   CsDisable cs MEMORY_STATUS_OK])) by reflexivity.
    destruct (IH (S w) 1 ltac:(discriminate)) as [I1 I2].
    apply Z.eqb_neq in Hw.
    split.
    + cbn [wait_wip_loop]. rewrite Hw.
      rewrite (bind_val _ _ _ _ _ _ Hr), outcome_run.
      cbn [fst snd is_ok negb]. exact I1.
    + change (wait_wip_loop (S (S busy)) ?h cs wip ?d)
        with ((if Z.land wip NREADY =? 0 then ret MEMORY_STATUS_OK
               else bind (cat25256_read_register h wip cs)
                      (fun r => if negb (is_ok (fst r))
                                then ret MEMORY_STATUS_NOK
                                else wait_wip_loop (S busy) h cs (snd r))) d).
      rewrite Hw.
      rewrite (bind_val _ _ _ _ _ _ Hr), outcome_run.
      cbn [fst snd is_ok negb]. exact I2.
Qed.

Lemma polls_run_S n handle cs wip d :
  polls_run (S n) handle cs wip d =
  match cat25256_read_register handle wip cs d with
  | (Val r, d', e) =>
      let (d'', es) := polls_run n handle cs (snd r) d' in (d'', e ++ es)
  | (_, d', e) => (d', e)
  end.
Proof. reflexivity. Qed.

Lemma polls_S n handle cs wip d :
  polls (S n) handle cs wip d =
  match cat25256_read_register handle wip cs d with
  | (Val r, d', _) => r :: polls n handle cs (snd r) d'
  | _ => []
  end.
Proof. reflexivity. Qed.

(** A busy-wait that stops at poll [n] is the run of the first [n + 1]
    status-register reads, no more and no less. *)
Lemma wait_loop_stops_run n handle cs :
  forall wip d rc fuel,
    Z.land wip NREADY <> 0 ->
    stops_at_poll n handle cs wip d rc ->
    (n < fuel)%nat ->
    wait_wip_loop fuel handle cs wip d =
    (Val rc, fst (polls_run (S n) handle cs wip d),
     snd (polls_run (S n) handle cs wip d)).
Proof.
  induction n as [|n IH];
    intros wip d rc fuel Hw (before & last & Hp & Hl & Hf & Hs & Hrc) Hn;
    (destruct fuel as [|fuel]; [lia|]);
    cbn [wait_wip_loop]; apply Z.eqb_neq in Hw; rewrite Hw;
    destruct (read_register_returns handle wip cs d) as (r & d' & e & Hr);
    rewrite (bind_val _ _ _ _ _ _ Hr);
    rewrite polls_S, Hr in Hp; rewrite polls_run_S, Hr.
  - destruct before as [|b before]; [|discriminate Hl].
    cbn [app polls] in Hp. injection Hp as <-.
    cbn [polls_run fst snd]. unfold still_busy in Hs.
    destruct (is_ok (fst r)); cbn [negb andb] in *.
    + apply negb_false_iff, Z.eqb_eq in Hs.
      rewrite (wait_loop_ready _ _ _ _ _ Hs).
      now rewrite outcome_run, events_run, Hrc.
    + unfold ret. now rewrite outcome_run, events_run, Hrc.
  - destruct before as [|b before]; [discriminate Hl|].
    cbn [app] in Hp. injection Hp as <- Hp.
    cbn [forallb List.length] in Hf, Hl.
    apply andb_true_iff in Hf as [Hb Hf].
    unfold still_busy in Hb. apply andb_true_iff in Hb as [Hok Hb].
    rewrite Hok. cbn [negb].
    apply negb_true_iff, Z.eqb_neq in Hb.
    assert (Hstop : stops_at_poll n handle cs (snd r) d' rc).
    { exists before, last. repeat split; try assumption. lia. }
    rewrite (IH (snd r) d' rc fuel Hb Hstop ltac:(lia)).
    rewrite outcome_run, events_run.
    now destruct (polls_run (S n) handle cs (snd r) d') as [d'' es].
Qed.

(** A busy-wait that is still running after [fuel] polls is the run of the
    first [fuel] status-register reads. *)
Lemma wait_loop_spin_run fuel handle cs :
  forall wip d,
    Z.land wip NREADY <> 0 ->
    List.length (polls fuel handle cs wip d) = fuel ->
    forallb still_busy (polls fuel handle cs wip d) = true ->
    wait_wip_loop fuel handle cs wip d =
    (Spin, fst (polls_run fuel handle cs wip d),
     snd (polls_run fuel handle cs wip d)).
Proof.
  induction fuel as [|fuel IH]; intros wip d Hw Hl Hf;
    cbn [wait_wip_loop]; apply Z.eqb_neq in Hw; rewrite Hw; [reflexivity|].
  destruct (read_register_returns handle wip cs d) as (r & d' & e & Hr).
  rewrite (bind_val _ _ _ _ _ _ Hr).
  rewrite polls_S, Hr in Hl, Hf. rewrite polls_run_S, Hr.
  cbn [forallb List.length] in Hf, Hl.
  apply andb_true_iff in Hf as [Hb Hf].
  unfold still_busy in Hb. apply andb_true_iff in Hb as [Hok Hb].
  rewrite Hok. cbn [negb].
  apply negb_true_iff, Z.eqb_neq in Hb.
  rewrite (IH (snd r) d' Hb ltac:(lia) Hf).
  rewrite outcome_run, events_run.
  now destruct (polls_run fuel handle cs (snd r) d') as [d'' es].
Qed.

(** What the busy-wait does on the bus of a valid handle. *)
Lemma wait_loop_on_bus fuel handle cs :
  cat25256_check_handle handle = MEMORY_STATUS_OK ->
  forall wip d,
    Z.land wip NREADY <> 0 ->
    match outcome (wait_wip_loop fuel handle cs wip d) with
    | Val MEMORY_STATUS_OK =>
        exists reads bytes,
          (List.length reads < fuel)%nat /\
          map forget_cs_status (events (wait_wip_loop fuel handle cs wip d))
            = flat_map (status_read_frame cs) (reads ++ [bytes]) /\
          forallb still_busy (wip_values wip reads) = true /\
          Z.land (hd (wip_after wip reads) bytes) NREADY = 0
    | Val MEMORY_STATUS_NOK =>
        exists reads tail,
          (List.length reads < fuel)%nat /\
          map forget_cs_status (events (wait_wip_loop fuel handle cs wip d))
            = flat_map (status_read_frame cs) reads ++ tail /\
          forallb still_busy (wip_values wip reads) = true /\
          failed_status_read cs tail
    | Val MEMORY_STATUS_INVALID_HANDLE => False
    | Spin =>
        exists reads,
          List.length reads = fuel /\
          map forget_cs_status (events (wait_wip_loop fuel handle cs wip d))
            = flat_map (status_read_frame cs) reads /\
          forallb still_busy (wip_values wip reads) = true
    | Fault => False
    end.
Proof.
  intros Hc.
  induction fuel as [|fuel IH]; intros wip d Hw;
    cbn [wait_wip_loop]; apply Z.eqb_neq in Hw as Hw'; rewrite Hw'.
  - cbn. now exists [].
  - destruct (read_register_run handle wip cs d Hc)
      as (r1 & r4 & d' & [(rcw & Hne & Hr) | (rc & bytes & Hr)]);
      rewrite (bind_val _ _ _ _ _ _ Hr), outcome_run, events_run;
      cbn [fst snd is_ok negb].
    + unfold ret. rewrite outcome_run, events_run, app_nil_r.
      exists [], [CsEnable cs MEMORY_STATUS_OK; BusWrite [RDSR] rcw;
                  CsDisable cs MEMORY_STATUS_OK].
      cbn [List.length]. repeat split; try reflexivity; try lia.
      left. now exists rcw.
    + destruct (is_ok rc) eqn:Hok; cbn [negb].
      * assert (rc = MEMORY_STATUS_OK) as -> by (now destruct rc).
        destruct (Z.eqb_spec (Z.land (hd wip bytes) NREADY) 0) as [Hz | Hz].
        -- rewrite (wait_loop_ready _ _ _ _ _ Hz), outcome_run, events_run.
           rewrite app_nil_r.
           exists [], bytes. cbn [List.length].
           repeat split; try reflexivity; try lia.
           exact Hz.
        -- specialize (IH (hd wip bytes) d' Hz).
           assert (Hb : still_busy (MEMORY_STATUS_OK, hd wip bytes) = true).
           { unfold still_busy. cbn [fst snd is_ok andb].
             apply negb_true_iff, Z.eqb_neq. exact Hz. }
           destruct (outcome (wait_wip_loop fuel handle cs (hd wip bytes) d'))
             as [[| |]| |]; try contradiction.
           ++ destruct IH as (reads & last & Hl & He & Hf & Hz').
              exists (bytes :: reads), last.
              rewrite map_app, He.
              cbn [List.length wip_values forallb]. rewrite Hb, Hf.
              cbn [List.length]. repeat split; try reflexivity; try lia. exact Hz'.
           ++ destruct IH as (reads & tail & Hl & He & Hf & Ht).
              exists (bytes :: reads), tail.
              rewrite map_app, He.
              cbn [List.length wip_values forallb]. rewrite Hb, Hf.
              cbn [List.length]. repeat split; try reflexivity; try lia. exact Ht.
           ++ destruct IH as (reads & Hl & He & Hf).
              exists (bytes :: reads).
              rewrite map_app, He.
              cbn [List.length wip_values forallb]. rewrite Hb, Hf, Hl.
              repeat split; reflexivity.
      * unfold ret. rewrite outcome_run, events_run, app_nil_r.
        exists [], [CsEnable cs MEMORY_STATUS_OK;
                    BusWrite [RDSR] MEMORY_STATUS_OK;
                    BusRead 1 bytes rc; CsDisable cs MEMORY_STATUS_OK].
        cbn [List.length]. repeat split; try reflexivity; try lia.
        right. exists rc, bytes. split; [|reflexivity].
        intros ->. discriminate Hok.
Qed.

(** On the bench device that is busy for [busy] status reads the busy-wait
    receives [busy + 1] times. *)
Lemma bench_busy_read_count cs busy :
  forall w wip,
    Z.land wip NREADY <> 0 ->
    List.length
      (filter is_bus_read
         (events
            (wait_wip_loop (S busy)
               (Some (bench_handle None MEMORY_STATUS_OK)) cs
               wip {| writes_seen := w; busy_reads := busy |})))
    = S busy.
Proof.
  induction busy as [|busy IH]; intros w wip Hw.
  - cbn [wait_wip_loop]. apply Z.eqb_neq in Hw. rewrite Hw. reflexivity.
  - assert (Hr : cat25256_read_register
                   (Some (bench_handle None MEMORY_STATUS_OK)) wip cs
                   {| writes_seen := w; busy_reads := S busy |} =
                 (Val (MEMORY_STATUS_OK, 1),
                  {| writes_seen := S w; busy_reads := busy |},
                  [CsEnable cs MEMORY_STATUS_OK;
                   BusWrite [RDSR] MEMORY_STATUS_OK;
                   BusRead 1 [1] MEMORY_STATUS_OK;
                   CsDisable cs MEMORY_STATUS_OK])) by reflexivity.
    apply Z.eqb_neq in Hw.
    change (wait_wip_loop (S (S busy)) ?h cs wip ?d)
      with ((if Z.land wip NREADY =? 0 then ret MEMORY_STATUS_OK
             else bind (cat25256_read_register h wip cs)
                    (fun r => if negb (is_ok (fst r))
                              then ret MEMORY_STATUS_NOK
                              else wait_wip_loop (S busy) h cs (snd r))) d).
    rewrite Hw.
    rewrite (bind_val _ _ _ _ _ _ Hr), events_run.
    cbn [fst snd is_ok negb].
    rewrite filter_app, length_app, (IH (S w) 1 ltac:(discriminate)).
    reflexivity.
Qed.

(** C9.  The busy-wait re-reads the status register until bit 0 is clear.

    - A run that returns is, in its events and in its effect on the device,
      the run of [n + 1] consecutive calls of [cat25256_read_register], for
      some [n] below the iteration budget: the first [n] succeeded with bit 0
      set, and call [n] either succeeded with bit 0 clear (the result is
      [MEMORY_STATUS_OK]) or failed (the result is [MEMORY_STATUS_NOK]);
      nothing else is returned.  A run still going after [fuel] iterations
      is the run of [fuel] such calls, all successful with bit 0 set.
    - Conversely, as soon as a call fails or shows bit 0 clear the busy-wait
      is exactly the run up to that call.
    - On the bus of a valid handle: a run that returns
      [MEMORY_STATUS_OK] is a sequence of successful status reads (chip-select
      enable, RDSR, reception of one byte, chip-select disable), each
      reception but the last leaving bit 0 set and the last one clearing
      it; a run that returns [MEMORY_STATUS_NOK] is such a sequence followed
      by one failed status read; a run still going is [fuel] such reads.
    - The loop has no bound: on a device whose busy bit stays set it never
      returns, and on a device that is busy for [busy] status reads it is
      still going after [busy] iterations and returns after [busy + 1]
      receptions. *)
Theorem busy_wait_polls_until_ready_or_failure handle cs d :
  (forall fuel,
     match outcome (cat25256_atomic_wait_wip_completed fuel handle cs d) with
     | Val rc =>
         rc <> MEMORY_STATUS_INVALID_HANDLE /\
         exists n,
           (n < fuel)%nat /\ stops_at_poll n handle cs NREADY d rc /\
           (device (cat25256_atomic_wait_wip_completed fuel handle cs d),
            events (cat25256_atomic_wait_wip_completed fuel handle cs d))
           = polls_run (S n) handle cs NREADY d
     | Spin =>
         List.length (polls fuel handle cs NREADY d) = fuel /\
         forallb still_busy (polls fuel handle cs NREADY d) = true /\
         (device (cat25256_atomic_wait_wip_completed fuel handle cs d),
          events (cat25256_atomic_wait_wip_completed fuel handle cs d))
         = polls_run fuel handle cs NREADY d
     | Fault => False
     end) /\
  (forall n rc,
     stops_at_poll n handle cs NREADY d rc ->
     forall fuel,
       (n < fuel)%nat ->
       cat25256_atomic_wait_wip_completed fuel handle cs d
       = (Val rc, fst (polls_run (S n) handle cs NREADY d),
          snd (polls_run (S n) handle cs NREADY d))) /\
  (cat25256_check_handle handle = MEMORY_STATUS_OK ->
   forall fuel,
     match outcome (cat25256_atomic_wait_wip_completed fuel handle cs d) with
     | Val MEMORY_STATUS_OK =>
         exists reads bytes,
           (List.length reads < fuel)%nat /\
           map forget_cs_status
             (events (cat25256_atomic_wait_wip_completed fuel handle cs d))
             = flat_map (status_read_frame cs) (reads ++ [bytes]) /\
           forallb still_busy (wip_values NREADY reads) = true /\
           Z.land (hd (wip_after NREADY reads) bytes) NREADY = 0
     | Val MEMORY_STATUS_NOK =>
         exists reads tail,
           (List.length reads < fuel)%nat /\
           map forget_cs_status
             (events (cat25256_atomic_wait_wip_completed fuel handle cs d))
             = flat_map (status_read_frame cs) reads ++ tail /\
           forallb still_busy (wip_values NREADY reads) = true /\
           failed_status_read cs tail
     | Val MEMORY_STATUS_INVALID_HANDLE => False
     | Spin =>
         exists reads,
           List.length reads = fuel /\
           map forget_cs_status
             (events (cat25256_atomic_wait_wip_completed fuel handle cs d))
             = flat_map (status_read_frame cs) reads /\
           forallb still_busy (wip_values NREADY reads) = true
     | Fault => False
     end) /\
  (forall fuel,
     outcome (cat25256_atomic_wait_wip_completed fuel (Some stuck_handle)
                cs tt) = Spin) /\
  (forall busy,
     outcome (cat25256_atomic_wait_wip_completed busy
                (Some (bench_handle None MEMORY_STATUS_OK)) cs (bench0 busy))
       = Spin /\
     outcome (cat25256_atomic_wait_wip_completed (S busy)
                (Some (bench_handle None MEMORY_STATUS_OK)) cs (bench0 busy))
       = Val MEMORY_STATUS_OK /\
     List.length
       (filter is_bus_read
          (events
             (cat25256_atomic_wait_wip_completed (S busy)
                (Some (bench_handle None MEMORY_STATUS_OK)) cs (bench0 busy))))
       = S busy).
Proof.
  unfold cat25256_atomic_wait_wip_completed. cbv zeta.
  assert (Hbusy : Z.land NREADY NREADY <> 0) by discriminate.
  split; [|split; [|split; [|split]]].
  - intros fuel.
    pose proof (wait_loop_forward fuel handle cs NREADY d Hbusy) as H.
    destruct (outcome (wait_wip_loop fuel handle cs NREADY d)) as [rc| |]
      eqn:Ho; [| |exact H].
    + destruct H as (n & Hn & Hs).
      split.
      * destruct Hs as (before & last & _ & _ & _ & _ & ->).
        destruct (is_ok (fst last)); discriminate.
      * exists n. split; [exact Hn|]. split; [exact Hs|].
        rewrite (wait_loop_stops_run n handle cs NREADY d rc fuel Hbusy Hs Hn).
        unfold device, events. cbn [fst snd].
        now destruct (polls_run (S n) handle cs NREADY d).
    + destruct H as (Hl & Hf). split; [exact Hl|]. split; [exact Hf|].
      rewrite (wait_loop_spin_run fuel handle cs NREADY d Hbusy Hl Hf).
      unfold device, events. cbn [fst snd].
      now destruct (polls_run fuel handle cs NREADY d).
  - intros n rc Hs fuel Hn.
    now apply (wait_loop_stops_run n handle cs NREADY d rc fuel).
  - intros Hc fuel. now apply wait_loop_on_bus.
  - intros fuel. now apply stuck_spins.
  - intros busy. split; [|split].
    + now apply bench_busy_then_ready.
    + now apply bench_busy_then_ready.
    + now apply bench_busy_read_count.
Qed.

End BusyWait.

(** ** The status of the chip-select capabilities is not looked at *)

Section ChipSelectStatus.

Context {D : Type}.

Lemma agree_refl {A : Type} (m : M D A) : agree m m.
Proof. intros d. auto. Qed.

Lemma agree_bind {A B : Type} (m m' : M D A) (k k' : A -> M D B) :
  agree m m' -> (forall a, agree (k a) (k' a)) ->
  agree (bind m k) (bind m' k').
Proof.
  intros Hm Hk d. unfold bind. specialize (Hm d).
  unfold outcome, device, events in *.
  destruct (m d) as [[r d1] e1], (m' d) as [[r' d1'] e1'].
  cbn [fst snd] in Hm. destruct Hm as (<- & <- & He).
  destruct r as [a| |]; cbn [fst snd]; auto.
  specialize (Hk a d1). unfold outcome, device, events in Hk.
  destruct (k a d1) as [[r2 d2] e2], (k' a d1) as [[r2' d2'] e2'].
  cbn [fst snd] in *. destruct Hk as (<- & <- & He2).
  rewrite !map_app, He, He2. auto.
Qed.

Lemma agree_if {A : Type} (b : bool) (m1 m1' m2 m2' : M D A) :
  agree m1 m1' -> agree m2 m2' ->
  agree (if b then m1 else m2) (if b then m1' else m2').
Proof. now destruct b. Qed.

Variables (rd : D -> Z -> memory_status_t * list Z * D)
          (wr : D -> list Z -> memory_status_t * D)
          (en dis en' dis' : D -> Z -> memory_status_t * D).

Hypothesis enable_same_effect : forall d cs, snd (en' d cs) = snd (en d cs).
Hypothesis disable_same_effect : forall d cs, snd (dis' d cs) = snd (dis d cs).

Local Abbreviation h :=
  (Some {| read := Some rd; write := Some wr;
           cs_enable := Some en; cs_disable := Some dis |}).

Local Abbreviation h' :=
  (Some {| read := Some rd; write := Some wr;
           cs_enable := Some en'; cs_disable := Some dis' |}).

Lemma agree_cs_enable {A : Type} cs (k k' : M D A) :
  agree k k' ->
  agree (bind (call_cs_enable h cs) (fun _ => k))
        (bind (call_cs_enable h' cs) (fun _ => k')).
Proof.
  intros Hk d. unfold bind. cbn [call_cs_enable cs_enable].
  pose proof (enable_same_effect d cs) as E.
  destruct (en d cs) as [r d1], (en' d cs) as [r' d1']. cbn [snd] in E.
  subst d1'. specialize (Hk d1). unfold outcome, device, events in *.
  destruct (k d1) as [[r2 d2] e2], (k' d1) as [[r2' d2'] e2'].
  cbn [fst snd] in *. destruct Hk as (<- & <- & He2).
  cbn [map app forget_cs_status]. rewrite He2. auto.
Qed.

Lemma agree_cs_disable {A : Type} cs (k k' : M D A) :
  agree k k' ->
  agree (bind (call_cs_disable h cs) (fun _ => k))
        (bind (call_cs_disable h' cs) (fun _ => k')).
Proof.
  intros Hk d. unfold bind. cbn [call_cs_disable cs_disable].
  pose proof (disable_same_effect d cs) as E.
  destruct (dis d cs) as [r d1], (dis' d cs) as [r' d1']. cbn [snd] in E.
  subst d1'. specialize (Hk d1). unfold outcome, device, events in *.
  destruct (k d1) as [[r2 d2] e2], (k' d1) as [[r2' d2'] e2'].
  cbn [fst snd] in *. destruct Hk as (<- & <- & He2).
  cbn [map app forget_cs_status]. rewrite He2. auto.
Qed.

Lemma agree_call_write bytes : agree (call_write h bytes) (call_write h' bytes).
Proof. apply agree_refl. Qed.

Lemma agree_call_read length : agree (call_read h length) (call_read h' length).
Proof. apply agree_refl. Qed.

Ltac agree_tac :=
  cbv zeta;
  repeat first
    [ apply agree_cs_enable | apply agree_cs_disable
    | apply agree_call_write | apply agree_call_read
    | apply agree_refl | apply agree_if
    | apply agree_bind; [| intros ?] ].

Lemma agree_atomic_read address data length cs :
  agree (cat25256_atomic_read h address data length cs)
        (cat25256_atomic_read h' address data length cs).
Proof. unfold cat25256_atomic_read. agree_tac. Qed.

Lemma agree_read address data length cs :
  agree (cat25256_read h address data length cs)
        (cat25256_read h' address data length cs).
Proof.
  unfold cat25256_read. cbn [cat25256_check_handle read write cs_enable
    cs_disable is_ok negb]. apply agree_atomic_read.
Qed.

Lemma agree_read_register byte cs :
  agree (cat25256_read_register h byte cs)
        (cat25256_read_register h' byte cs).
Proof.
  unfold cat25256_read_register.
  cbn [cat25256_check_handle read write cs_enable cs_disable is_ok negb].
  agree_tac.
Qed.

Lemma agree_write_register byte cs :
  agree (cat25256_write_register h byte cs)
        (cat25256_write_register h' byte cs).
Proof.
  unfold cat25256_write_register.
  cbn [cat25256_check_handle read write cs_enable cs_disable is_ok negb].
  agree_tac.
Qed.

Lemma agree_write_latch enable cs :
  agree (cat25256_atomic_write_latch h enable cs)
        (cat25256_atomic_write_latch h' enable cs).
Proof. unfold cat25256_atomic_write_latch. agree_tac. Qed.

Lemma agree_atomic_write address data length cs :
  agree (cat25256_atomic_write h address data length cs)
        (cat25256_atomic_write h' address data length cs).
Proof. unfold cat25256_atomic_write. agree_tac. Qed.

Lemma agree_wait_loop fuel cs wip :
  agree (wait_wip_loop fuel h cs wip) (wait_wip_loop fuel h' cs wip).
Proof.
  revert wip. induction fuel as [|fuel IH]; intros wip; cbn [wait_wip_loop].
  - apply agree_refl.
  - apply agree_if; [apply agree_refl|].
    apply agree_bind; [apply agree_read_register | intros r].
    apply agree_if; [apply agree_refl | apply IH].
Qed.

Lemma agree_write_page fuel address data length cs :
  agree (cat25256_write_page fuel h address data length cs)
        (cat25256_write_page fuel h' address data length cs).
Proof.
  unfold cat25256_write_page, write_page_body,
    cat25256_atomic_write_latch_enable, cat25256_atomic_write_latch_disable,
    cat25256_atomic_wait_wip_completed.
  cbn [cat25256_check_handle read write cs_enable cs_disable is_ok negb].
  cbv zeta.
  repeat first
    [ apply agree_write_register | apply agree_write_latch
    | apply agree_atomic_write | apply agree_wait_loop
    | apply agree_refl | apply agree_if
    | apply agree_bind; [| intros ?] ].
Qed.

Lemma agree_write_aligned_loop fuel address data length cs pc n :
  forall i,
    agree (write_aligned_loop fuel h address data length cs pc n i)
          (write_aligned_loop fuel h' address data length cs pc n i).
Proof.
  induction n as [|n IH]; intros i; cbn [write_aligned_loop].
  - apply agree_refl.
  - apply agree_bind.
    + apply agree_if; apply agree_write_page.
    + intros rc. apply agree_if; [apply agree_refl | apply IH].
Qed.

Lemma agree_write fuel address data length cs :
  agree (cat25256_write fuel h address data length cs)
        (cat25256_write fuel h' address data length cs).
Proof.
  unfold cat25256_write.
  apply agree_if; [apply agree_write_page|].
  apply agree_if.
  - unfold cat25256_write_address_aligned. cbv zeta.
    apply agree_write_aligned_loop.
  - unfold cat25256_write_address_unaligned. cbv zeta.
    apply agree_bind; [apply agree_write_page | intros rc].
    apply agree_if; [apply agree_refl|].
    apply agree_if; [|apply agree_refl].
    unfold cat25256_write_address_aligned. cbv zeta.
    apply agree_write_aligned_loop.
Qed.

End ChipSelectStatus.

(** C10.  Replace the two chip-select capabilities of a valid handle by any
    others that act on the device object in the same way but report other
    statuses: each public operation ends with the same status and the same
    device object after the same calls.  On the bench, with every
    chip-select call reporting [MEMORY_STATUS_NOK], each operation returns
    [MEMORY_STATUS_OK]. *)
Theorem chip_select_status_ignored {D : Type}
  (rd : D -> Z -> memory_status_t * list Z * D)
  (wr : D -> list Z -> memory_status_t * D)
  (en dis en' dis' : D -> Z -> memory_status_t * D) :
  (forall d cs, snd (en' d cs) = snd (en d cs)) ->
  (forall d cs, snd (dis' d cs) = snd (dis d cs)) ->
  let h := Some {| read := Some rd; write := Some wr;
                   cs_enable := Some en; cs_disable := Some dis |} in
  let h' := Some {| read := Some rd; write := Some wr;
                    cs_enable := Some en'; cs_disable := Some dis' |} in
  (forall fuel address data length byte cs,
     agree (cat25256_read h address data length cs)
           (cat25256_read h' address data length cs) /\
     agree (cat25256_write fuel h address data length cs)
           (cat25256_write fuel h' address data length cs) /\
     agree (cat25256_write_page fuel h address data length cs)
           (cat25256_write_page fuel h' address data length cs) /\
     agree (cat25256_read_register h byte cs)
           (cat25256_read_register h' byte cs) /\
     agree (cat25256_write_register h byte cs)
           (cat25256_write_register h' byte cs)) /\
  (let deaf := Some (bench_handle None MEMORY_STATUS_NOK) in
   outcome (cat25256_read deaf 0 [] 4 0 (bench0 0)) =
     Val (MEMORY_STATUS_OK, [0; 0; 0; 0]) /\
   outcome (cat25256_write 1 deaf 32 (repeat 170 100) 100 0 (bench0 0)) =
     Val MEMORY_STATUS_OK /\
   outcome (cat25256_write_page 1 deaf 0 (repeat 170 64) 64 0 (bench0 0)) =
     Val MEMORY_STATUS_OK /\
   outcome (cat25256_read_register deaf 0 0 (bench0 0)) =
     Val (MEMORY_STATUS_OK, 0) /\
   outcome (cat25256_write_register deaf 0 0 (bench0 0)) =
     Val MEMORY_STATUS_OK).
Proof.
  intros Hen Hdis h h'. split.
  - intros fuel address data length byte cs.
    split; [apply (agree_read rd wr en dis en' dis' Hen Hdis)|].
    split; [apply (agree_write rd wr en dis en' dis' Hen Hdis)|].
    split; [apply (agree_write_page rd wr en dis en' dis' Hen Hdis)|].
    split; [apply (agree_read_register rd wr en dis en' dis' Hen Hdis)|].
    apply (agree_write_register rd wr en dis en' dis' Hen Hdis).
  - vm_compute. repeat split.
Qed.

(** ** What the splitter covers *)

Section Coverage.

Context {D : Type}.
Implicit Types handle : option (cat25256_handle_t D).

Lemma bind_ok_inv {A B : Type} (m : M D A) (k : A -> M D B) d b :
  outcome (bind m k d) = Val b ->
  exists a d1 e1,
    m d = (Val a, d1, e1) /\
    outcome (k a d1) = Val b /\
    events (bind m k d) = e1 ++ events (k a d1).
Proof.
  unfold bind, outcome, events.
  destruct (m d) as [[[a| |] d1] e1]; cbn [fst snd]; try discriminate.
  intros H. exists a, d1, e1.
  destruct (k a d1) as [[r d2] e2]. cbn [fst snd] in *. auto.
Qed.

Lemma int32_small z : 0 <= z < 2 ^ 31 -> int32 z = z.
Proof. intros H. unfold int32. rewrite Z.mod_small; lia. Qed.

Lemma u32_small z : 0 <= z < 2 ^ 32 -> u32 z = z.
Proof. intros H. unfold u32. now rewrite Z.mod_small. Qed.

(** When all page-writes of the loop succeed, they tile the range from
    page [i] on; the last one, page [pc - 1], takes [length mod PAGE_SIZE]
    bytes. *)
Lemma write_aligned_loop_covers fuel handle address data length cs pc n :
  forall i d,
    0 <= address -> 0 <= i -> i + Z.of_nat n = pc ->
    pc * PAGE_SIZE < 2 ^ 31 -> address + pc * PAGE_SIZE <= 2 ^ 32 ->
    outcome (write_aligned_loop fuel handle address data length cs pc n i d)
      = Val MEMORY_STATUS_OK ->
    let calls :=
      page_calls
        (events
           (write_aligned_loop fuel handle address data length cs pc n i d))
    in
    covers_from (address + i * PAGE_SIZE)
      (skipn (Z.to_nat (i * PAGE_SIZE)) data) calls /\
    List.length calls = n /\
    total_length calls =
      match n with
      | O => 0
      | S n' => Z.of_nat n' * PAGE_SIZE + length mod PAGE_SIZE
      end.
Proof.
  unfold PAGE_SIZE.
  induction n as [|n IH]; intros i d Ha Hi Hpc Hint Hu32 Hok.
  - cbn. auto.
  - cbn [write_aligned_loop] in *. unfold PAGE_SIZE in *.
    assert (Hi32 : int32 (i * 64) = i * 64) by (apply int32_small; lia).
    assert (Hadr : u32 (address + int32 (i * 64)) = address + i * 64)
      by (rewrite Hi32; apply u32_small; lia).
    rewrite Hadr, Hi32 in *.
    set (dt := skipn (Z.to_nat (i * 64)) data) in *.
    assert (E : forall len1 len2,
               (if i =? pc - 1
                then cat25256_write_page fuel handle (address + i * 64) dt
                       len1 cs
                else cat25256_write_page fuel handle (address + i * 64) dt
                       len2 cs)
               = cat25256_write_page fuel handle (address + i * 64) dt
                   (if i =? pc - 1 then len1 else len2) cs)
      by (intros; now destruct (i =? pc - 1)).
    rewrite E in *. clear E.
    set (l := if i =? pc - 1 then length mod 64 else 64) in *.
    destruct (bind_ok_inv _ _ _ _ Hok) as (rc & d1 & e1 & Hw & Hk & ->).
    pose proof (write_page_calls fuel handle (address + i * 64) dt l cs d)
      as Hc.
    rewrite Hw, events_run in Hc.
    rewrite page_calls_app, Hc.
    destruct rc; cbn [is_ok negb] in *; try discriminate Hk.
    assert (Hmod : 0 <= length mod 64 < 64) by (apply Z.mod_pos_bound; lia).
    destruct n as [|n].
    + cbn [write_aligned_loop ret events snd page_calls flat_map app].
      assert (Hl : l = length mod 64).
      { subst l. destruct (Z.eqb_spec i (pc - 1)); [reflexivity | lia]. }
      cbn [covers_from List.length total_length fold_right snd Z.of_nat].
      rewrite Hl. unfold PAGE_SIZE. repeat split; lia.
    + assert (Hl : l = 64).
      { subst l. destruct (Z.eqb_spec i (pc - 1)); [lia | reflexivity]. }
      destruct (IH (i + 1) d1 Ha ltac:(lia) ltac:(lia) Hint Hu32 Hk)
        as (Hcov & Hlen & Htot).
      cbn [app covers_from List.length total_length fold_right snd].
      fold (total_length
              (page_calls
                 (events
                    (write_aligned_loop fuel handle address data length cs pc
                       (S n) (i + 1) d1)))).
      rewrite Hlen, Htot, Hl. unfold PAGE_SIZE.
      repeat split; try lia.
      replace (address + i * 64 + 64) with (address + (i + 1) * 64) by lia.
      subst dt. rewrite skipn_skipn.
      replace (Z.to_nat 64 + Z.to_nat (i * 64))%nat
        with (Z.to_nat ((i + 1) * 64)) by lia.
      exact Hcov.
Qed.

(** What a successful [cat25256_write_address_aligned] covers: the
    page-writes tile the range from [address] on, there are
    [ceil (length / PAGE_SIZE)] of them, and together they send [length]
    bytes unless [length] is a multiple of the page size, in which case the
    last page-write has length 0 and one page is missing. *)
Lemma write_address_aligned_covers fuel handle address data length cs d :
  0 <= address -> 0 < length ->
  length + PAGE_SIZE < 2 ^ 31 -> address + length + PAGE_SIZE <= 2 ^ 32 ->
  outcome (cat25256_write_address_aligned fuel handle address data length cs d)
    = Val MEMORY_STATUS_OK ->
  let calls :=
    page_calls
      (events
         (cat25256_write_address_aligned fuel handle address data length cs d))
  in
  covers_from address data calls /\
  Z.of_nat (List.length calls) = (length + PAGE_SIZE - 1) / PAGE_SIZE /\
  total_length calls =
    (if length mod PAGE_SIZE =? 0 then length - PAGE_SIZE else length).
Proof.
  unfold cat25256_write_address_aligned, PAGE_SIZE. cbv zeta.
  intros Ha Hl Hint Hu32.
  set (pc := if negb (length mod 64 =? 0)
             then length / 64 + 1 else length / 64).
  pose proof (Z.div_mod length 64 ltac:(lia)) as Hdm.
  pose proof (Z.mod_pos_bound length 64 ltac:(lia)) as Hmod.
  assert (Hpc : (length + 64 - 1) / 64 = pc /\
                1 <= pc /\ pc * 64 < length + 64).
  { subst pc. destruct (Z.eqb_spec (length mod 64) 0) as [E|E]; cbn [negb].
    - assert (1 <= length / 64) by lia.
      repeat split; try lia.
      symmetry. apply Z.div_unique with (r := 63); lia.
    - repeat split; try lia.
      symmetry. apply Z.div_unique with (r := length mod 64 - 1); lia. }
  destruct Hpc as (Hceil & Hpos & Hub).
  intros Hok.
  destruct (write_aligned_loop_covers fuel handle address data length cs pc
              (Z.to_nat pc) 0 d Ha ltac:(lia) ltac:(lia)
              ltac:(unfold PAGE_SIZE; lia) ltac:(unfold PAGE_SIZE; lia) Hok)
    as (Hcov & Hlen & Htot).
  rewrite Z.add_0_r in Hcov. cbn [Z.mul Z.to_nat skipn] in Hcov.
  split; [exact Hcov|]. split; [rewrite Hlen, Hceil; lia|].
  rewrite Htot. unfold PAGE_SIZE.
  destruct (Z.to_nat pc) as [|n'] eqn:En; [lia|].
  assert (Z.of_nat n' = pc - 1) by lia.
  subst pc. destruct (Z.eqb_spec (length mod 64) 0) as [E|E];
    cbn [negb] in *; lia.
Qed.

(** The aligned branch of [cat25256_write]. *)
Lemma write_aligned_covers fuel handle address data length cs d :
  0 <= address -> address mod PAGE_SIZE = 0 -> PAGE_SIZE < length ->
  length + PAGE_SIZE < 2 ^ 31 -> address + length + PAGE_SIZE <= 2 ^ 32 ->
  outcome (cat25256_write fuel handle address data length cs d)
    = Val MEMORY_STATUS_OK ->
  let calls :=
    page_calls (events (cat25256_write fuel handle address data length cs d))
  in
  covers_from address data calls /\
  Z.of_nat (List.length calls) = (length + PAGE_SIZE - 1) / PAGE_SIZE /\
  total_length calls =
    (if length mod PAGE_SIZE =? 0 then length - PAGE_SIZE else length).
Proof.
  intros Ha Hal Hl Hint Hu32. unfold cat25256_write.
  apply Z.leb_gt in Hl as Hl'. rewrite Hl'.
  apply Z.eqb_eq in Hal. rewrite Hal.
  apply write_address_aligned_covers; unfold PAGE_SIZE in *; lia.
Qed.

(** The unaligned branch of [cat25256_write]: the first page-write runs up
    to the next page boundary, the others are those of the aligned case for
    what is left. *)
Lemma write_unaligned_covers fuel handle address data length cs d :
  0 <= address -> address mod PAGE_SIZE <> 0 -> PAGE_SIZE < length ->
  length + PAGE_SIZE < 2 ^ 31 -> address + length + PAGE_SIZE <= 2 ^ 32 ->
  outcome (cat25256_write fuel handle address data length cs d)
    = Val MEMORY_STATUS_OK ->
  let first := PAGE_SIZE - address mod PAGE_SIZE in
  exists rest,
    page_calls (events (cat25256_write fuel handle address data length cs d))
      = (address, data, first) :: rest /\
    (address + first) mod PAGE_SIZE = 0 /\
    covers_from (address + first) (skipn (Z.to_nat first) data) rest /\
    total_length rest =
      (if (length - first) mod PAGE_SIZE =? 0
       then length - first - PAGE_SIZE else length - first).
Proof.
  intros Ha Hal Hl Hint Hu32. unfold cat25256_write.
  apply Z.leb_gt in Hl as Hl'. rewrite Hl'.
  apply Z.eqb_neq in Hal as Hal'. rewrite Hal'.
  unfold cat25256_write_address_unaligned. cbv zeta.
  pose proof (Z.mod_pos_bound address PAGE_SIZE ltac:(reflexivity)) as Hm.
  set (first := PAGE_SIZE - address mod PAGE_SIZE) in *.
  assert (Hf : 0 < first <= PAGE_SIZE) by (subst first; lia).
  assert (Hgt : (first >? length) = false)
    by (rewrite Z.gtb_ltb; apply Z.ltb_ge; lia).
  rewrite Hgt. intros Hok.
  destruct (bind_ok_inv _ _ _ _ Hok) as (rc & d1 & e1 & Hw & Hk & ->).
  pose proof (write_page_calls fuel handle address data first cs d) as Hc.
  rewrite Hw, events_run in Hc. rewrite page_calls_app, Hc.
  destruct rc; cbn [is_ok negb] in *; try discriminate Hk.
  assert (Hps : PAGE_SIZE = 64) by reflexivity.
  assert (Hi : int32 (length - first) = length - first)
    by (apply int32_small; lia).
  assert (Hu : u32 (length - first) = length - first)
    by (apply u32_small; lia).
  assert (Hau : u32 (address + first) = address + first)
    by (apply u32_small; lia).
  rewrite Hi, Hu, Hau in *.
  assert (Hpos : (length - first >? 0) = true)
    by (rewrite Z.gtb_ltb; apply Z.ltb_lt; lia).
  rewrite Hpos in *.
  destruct (write_address_aligned_covers fuel handle (address + first)
              (skipn (Z.to_nat first) data) (length - first) cs d1
              ltac:(lia) ltac:(lia) ltac:(lia) ltac:(lia) Hk)
    as (Hcov & _ & Htot).
  eexists. split; [reflexivity|]. split; [|split; assumption].
  subst first.
  replace (address + (PAGE_SIZE - address mod PAGE_SIZE))
    with (address - address mod PAGE_SIZE + 1 * PAGE_SIZE) by lia.
  rewrite Z.mod_add by discriminate.
  rewrite Zminus_mod_idemp_r, Z.sub_diag. reflexivity.
Qed.

End Coverage.

(** The write of 65 bytes at address 0: a full page at 0, then one byte at
    64. *)
Example write_65_bytes_at_0 :
  page_calls
    (events
       (cat25256_write 1 (Some (bench_handle None MEMORY_STATUS_OK))
          0 (repeat 170 65) 65 0 (bench0 0)))
  = [(0, repeat 170 65, 64); (64, [170], 1)].
Proof. reflexivity. Qed.

(** ** Two writes the splitter cuts short *)

(** C1.  The aligned write of 128 bytes at address 64, on a bench device
    where every transfer succeeds and that is ready at once: the operation
    returns [MEMORY_STATUS_OK], its two page-writes are 64 bytes at address
    64 and 0 bytes at address 128, and the payload sent for the second one is
    empty.  The second page is not written. *)
Theorem aligned_write_of_two_pages_sends_one :
  let data := repeat 170 128 in
  let run :=
    cat25256_write 1 (Some (bench_handle None MEMORY_STATUS_OK))
      64 data 128 0 (bench0 0) in
  outcome run = Val MEMORY_STATUS_OK /\
  page_calls (events run) = [(64, data, 64); (128, skipn 64 data, 0)] /\
  total_length (page_calls (events run)) = 64 /\
  bus_writes (events run) =
    [[WRSR; NREADY]; [WREN]; [WRITE; 0; 64]; repeat 170 64; [WRDI]; [RDSR];
     [WRSR; NREADY]; [WREN]; [WRITE; 0; 128]; []; [WRDI]; [RDSR]].
Proof. vm_compute. repeat split. Qed.

(** C2.  The unaligned write of 96 bytes at address 32, on the same bench
    device: the operation returns [MEMORY_STATUS_OK], the first page-write
    takes the 32 bytes up to the page boundary at 64, and the only other
    page-write is 0 bytes at address 64.  Of the 64 bytes that are left
    none is sent. *)
Theorem unaligned_write_drops_the_full_page_left :
  let data := repeat 170 96 in
  let run :=
    cat25256_write 1 (Some (bench_handle None MEMORY_STATUS_OK))
      32 data 96 0 (bench0 0) in
  outcome run = Val MEMORY_STATUS_OK /\
  page_calls (events run) = [(32, data, 32); (64, skipn 32 data, 0)] /\
  total_length (page_calls (events run)) = 32 /\
  bus_writes (events run) =
    [[WRSR; NREADY]; [WREN]; [WRITE; 0; 32]; repeat 170 32; [WRDI]; [RDSR];
     [WRSR; NREADY]; [WREN]; [WRITE; 0; 64]; []; [WRDI]; [RDSR]].
Proof. vm_compute. repeat split. Qed.

(** ** The theorems at work on the bench *)

Lemma small_write_is_one_page_write_witness :
  10 <= PAGE_SIZE /\
  (cat25256_write 1 (Some (bench_handle None MEMORY_STATUS_OK))
     60 (repeat 170 10) 10 0 (bench0 0) =
   cat25256_write_page 1 (Some (bench_handle None MEMORY_STATUS_OK))
     60 (repeat 170 10) 10 0 (bench0 0) /\
   page_calls
     (events
        (cat25256_write 1 (Some (bench_handle None MEMORY_STATUS_OK))
           60 (repeat 170 10) 10 0 (bench0 0)))
   = [(60, repeat 170 10, 10)]).
Proof.
  split.
  - discriminate.
  - apply (small_write_is_one_page_write 1
             (Some (bench_handle None MEMORY_STATUS_OK))
             60 (repeat 170 10) 10 0 (bench0 0)).
    discriminate.
Defined.

Lemma invalid_handle_no_bus_activity_witness :
  invalid_handle (Some no_read_handle) /\
  outcome (cat25256_write 1 (Some no_read_handle) 32 (repeat 170 100) 100 0
             (bench0 0))
    = Val MEMORY_STATUS_INVALID_HANDLE /\
  capability_calls
    (events (cat25256_write 1 (Some no_read_handle) 32 (repeat 170 100) 100 0
               (bench0 0)))
    = [].
Proof.
  assert (H : invalid_handle (Some no_read_handle)) by (left; reflexivity).
  split; [exact H|].
  destruct (invalid_handle_no_bus_activity (Some no_read_handle) H
              1%nat 32 (repeat 170 100) 100 0 0 (bench0 0))
    as (_ & _ & _ & _ & Ho & _ & Hc).
  split; [exact Ho | exact Hc].
Defined.

Lemma chip_select_always_released_witness :
  cat25256_check_handle (Some (bench_handle (Some 1%nat) MEMORY_STATUS_NOK))
    = MEMORY_STATUS_OK /\
  cs_framed 3
    (events
       (cat25256_atomic_write
          (Some (bench_handle (Some 1%nat) MEMORY_STATUS_NOK))
          64 [1; 2] 2 3 (bench0 0))).
Proof.
  split; [reflexivity|].
  destruct (chip_select_always_released
              (Some (bench_handle (Some 1%nat) MEMORY_STATUS_NOK)) eq_refl
              64 [1; 2] 2 0 3 (bench0 0))
    as (_ & (_ & _ & H) & _).
  exact H.
Defined.

Lemma failed_write_transaction_cleanup_witness :
  cat25256_write_register (Some (bench_handle (Some 3%nat) MEMORY_STATUS_OK))
    NREADY 0 (bench0 0)
  = (Val MEMORY_STATUS_OK, {| writes_seen := 1; busy_reads := 0 |},
     [CsEnable 0 MEMORY_STATUS_OK; BusWrite [1; 1] MEMORY_STATUS_OK;
      CsDisable 0 MEMORY_STATUS_OK]) /\
  cat25256_atomic_write_latch_enable
    (Some (bench_handle (Some 3%nat) MEMORY_STATUS_OK)) 0
    {| writes_seen := 1; busy_reads := 0 |}
  = (Val MEMORY_STATUS_OK, {| writes_seen := 2; busy_reads := 0 |},
     [CsEnable 0 MEMORY_STATUS_OK; BusWrite [6] MEMORY_STATUS_OK;
      CsDisable 0 MEMORY_STATUS_OK]) /\
  cat25256_atomic_write (Some (bench_handle (Some 3%nat) MEMORY_STATUS_OK))
    0 [1; 2; 3] 3 0 {| writes_seen := 2; busy_reads := 0 |}
  = (Val MEMORY_STATUS_NOK, {| writes_seen := 4; busy_reads := 0 |},
     [CsEnable 0 MEMORY_STATUS_OK; BusWrite [2; 0; 0] MEMORY_STATUS_OK;
      BusWrite [1; 2; 3] MEMORY_STATUS_NOK; CsDisable 0 MEMORY_STATUS_OK]) /\
  MEMORY_STATUS_NOK <> MEMORY_STATUS_OK /\
  outcome
    (cat25256_write_page 1 (Some (bench_handle (Some 3%nat) MEMORY_STATUS_OK))
       0 [1; 2; 3] 3 0 (bench0 0))
  = Val MEMORY_STATUS_NOK /\
  existsb is_bus_read
    (events
       (cat25256_write_page 1
          (Some (bench_handle (Some 3%nat) MEMORY_STATUS_OK))
          0 [1; 2; 3] 3 0 (bench0 0)))
  = false.
Proof.
  assert (Hne : MEMORY_STATUS_NOK <> MEMORY_STATUS_OK) by discriminate.
  do 3 (split; [reflexivity|]). split; [exact Hne|].
  destruct (failed_write_transaction_cleanup 1
              (Some (bench_handle (Some 3%nat) MEMORY_STATUS_OK))
              0 [1; 2; 3] 3 0 (bench0 0)
              _ _ _ _ _ _ _ eq_refl eq_refl eq_refl Hne)
    as (rc_en & rc_w & rc_dis & d4 & _ & E & R).
  split; [now rewrite E | exact R].
Defined.

Lemma latch_disable_status_ignored_witness :
  cat25256_write_register (Some (bench_handle (Some 4%nat) MEMORY_STATUS_OK))
    NREADY 0 (bench0 0)
  = (Val MEMORY_STATUS_OK, {| writes_seen := 1; busy_reads := 0 |},
     [CsEnable 0 MEMORY_STATUS_OK; BusWrite [1; 1] MEMORY_STATUS_OK;
      CsDisable 0 MEMORY_STATUS_OK]) /\
  cat25256_atomic_write_latch_enable
    (Some (bench_handle (Some 4%nat) MEMORY_STATUS_OK)) 0
    {| writes_seen := 1; busy_reads := 0 |}
  = (Val MEMORY_STATUS_OK, {| writes_seen := 2; busy_reads := 0 |},
     [CsEnable 0 MEMORY_STATUS_OK; BusWrite [6] MEMORY_STATUS_OK;
      CsDisable 0 MEMORY_STATUS_OK]) /\
  cat25256_atomic_write (Some (bench_handle (Some 4%nat) MEMORY_STATUS_OK))
    0 [1; 2; 3] 3 0 {| writes_seen := 2; busy_reads := 0 |}
  = (Val MEMORY_STATUS_OK, {| writes_seen := 4; busy_reads := 0 |},
     [CsEnable 0 MEMORY_STATUS_OK; BusWrite [2; 0; 0] MEMORY_STATUS_OK;
      BusWrite [1; 2; 3] MEMORY_STATUS_OK; CsDisable 0 MEMORY_STATUS_OK]) /\
  cat25256_atomic_write_latch_disable
    (Some (bench_handle (Some 4%nat) MEMORY_STATUS_OK)) 0
    {| writes_seen := 4; busy_reads := 0 |}
  = (Val MEMORY_STATUS_NOK, {| writes_seen := 5; busy_reads := 0 |},
     [CsEnable 0 MEMORY_STATUS_OK; BusWrite [4] MEMORY_STATUS_NOK;
      CsDisable 0 MEMORY_STATUS_OK]) /\
  outcome
    (cat25256_write_page 1 (Some (bench_handle (Some 4%nat) MEMORY_STATUS_OK))
       0 [1; 2; 3] 3 0 (bench0 0))
  = Val MEMORY_STATUS_OK.
Proof.
  do 4 (split; [reflexivity|]).
  destruct (latch_disable_status_ignored 1
              (Some (bench_handle (Some 4%nat) MEMORY_STATUS_OK))
              0 [1; 2; 3] 3 0 (bench0 0)
              _ _ _ _ _ _ _ _ _ eq_refl eq_refl eq_refl eq_refl)
    as (Ho & _).
  exact Ho.
Defined.

Lemma busy_wait_polls_until_ready_or_failure_witness :
  stops_at_poll 2 (Some (bench_handle None MEMORY_STATUS_OK)) 0 NREADY
    (bench0 2) MEMORY_STATUS_OK /\
  (2 < 5)%nat /\
  cat25256_atomic_wait_wip_completed 5
    (Some (bench_handle None MEMORY_STATUS_OK)) 0 (bench0 2)
  = (Val MEMORY_STATUS_OK, {| writes_seen := 3; busy_reads := 0 |},
     status_read_frame 0 [1] ++ status_read_frame 0 [1]
     ++ status_read_frame 0 [0]).
Proof.
  assert (H : stops_at_poll 2 (Some (bench_handle None MEMORY_STATUS_OK)) 0
                NREADY (bench0 2) MEMORY_STATUS_OK).
  { exists [(MEMORY_STATUS_OK, 1); (MEMORY_STATUS_OK, 1)],
      (MEMORY_STATUS_OK, 0).
    repeat split. }
  assert (L : (2 < 5)%nat) by (repeat constructor).
  split; [exact H|]. split; [exact L|].
  destruct (busy_wait_polls_until_ready_or_failure
              (Some (bench_handle None MEMORY_STATUS_OK)) 0 (bench0 2))
    as (_ & Hback & _).
  exact (Hback 2%nat MEMORY_STATUS_OK H 5%nat L).
Defined.

Lemma chip_select_status_ignored_witness :
  (forall d cs, snd (bench_cs MEMORY_STATUS_NOK d cs)
                = snd (bench_cs MEMORY_STATUS_OK d cs)) /\
  agree
    (cat25256_write 1 (Some (bench_handle None MEMORY_STATUS_OK))
       32 (repeat 170 100) 100 0)
    (cat25256_write 1 (Some (bench_handle None MEMORY_STATUS_NOK))
       32 (repeat 170 100) 100 0).
Proof.
  assert (H : forall d cs, snd (bench_cs MEMORY_STATUS_NOK d cs)
                           = snd (bench_cs MEMORY_STATUS_OK d cs))
    by (intros d cs; reflexivity).
  split; [exact H|].
  destruct (chip_select_status_ignored bench_read (bench_write None)
              (bench_cs MEMORY_STATUS_OK) (bench_cs MEMORY_STATUS_OK)
              (bench_cs MEMORY_STATUS_NOK) (bench_cs MEMORY_STATUS_NOK) H H)
    as (Hall & _).
  destruct (Hall 1%nat 32 (repeat 170 100) 100 0 0) as (_ & Hw & _).
  exact Hw.
Defined.

(** * Further properties of the driver *)

(** ** Handle check, read path and status-register read *)

Section Accessors.

Context {D : Type}.
Implicit Types handle : option (cat25256_handle_t D).

(** [cat25256_check_handle] accepts exactly the handles that are not
    NULL and hold all four capabilities, and rejects every other one with
    [MEMORY_STATUS_INVALID_HANDLE]; it never answers
    [MEMORY_STATUS_NOK]. *)
Theorem check_handle_decides_validity handle :
  (cat25256_check_handle handle = MEMORY_STATUS_OK <->
   exists rd wr en dis,
     handle = Some {| read := Some rd; write := Some wr;
                      cs_enable := Some en; cs_disable := Some dis |}) /\
  (cat25256_check_handle handle = MEMORY_STATUS_INVALID_HANDLE <->
   invalid_handle handle) /\
  cat25256_check_handle handle <> MEMORY_STATUS_NOK.
Proof.
  split; [|split].
  - split; [apply check_handle_ok_inv|].
    intros (rd & wr & en & dis & ->). reflexivity.
  - split; [|apply check_handle_invalid].
    destruct handle as [[[rd|] [wr|] [en|] [dis|]]|]; cbn;
      try discriminate; auto.
  - destruct (check_handle_cases handle) as [-> | ->]; discriminate.
Qed.

(** X1.  On a valid handle [cat25256_read] is one chip-select scope.  It
    sends the three header bytes READ, address bits 15..8, address bits
    7..0.  If that transfer fails it returns [MEMORY_STATUS_NOK] without
    calling the read capability and the caller's buffer is as before.
    Otherwise it asks the read capability for [length] bytes in one call,
    whatever [length] is, and returns that call's status with the bytes at
    the start of the buffer. *)
Theorem read_is_one_framed_exchange handle address data length cs d :
  cat25256_check_handle handle = MEMORY_STATUS_OK ->
  exists rc_en rc_dis d',
    (exists rch,
       rch <> MEMORY_STATUS_OK /\
       cat25256_read handle address data length cs d =
       (Val (MEMORY_STATUS_NOK, data), d',
        [CsEnable cs rc_en;
         BusWrite [READ; u8 (Z.shiftr address 8); u8 address] rch;
         CsDisable cs rc_dis])) \/
    (exists rc bytes,
       cat25256_read handle address data length cs d =
       (Val (rc, store data bytes), d',
        [CsEnable cs rc_en;
         BusWrite [READ; u8 (Z.shiftr address 8); u8 address]
           MEMORY_STATUS_OK;
         BusRead length bytes rc;
         CsDisable cs rc_dis])).
Proof.
  intros H. unfold cat25256_read. rewrite H. cbn [is_ok negb].
  destruct (check_handle_ok_inv _ H) as (rd & wr & en & dis & ->).
  unfold cat25256_atomic_read, bind, call_cs_enable, call_write, call_read,
    call_cs_disable, ret.
  cbn [cs_enable write cs_disable read].
  destruct (en d cs) as [r1 d1].
  destruct (wr d1 [READ; u8 (Z.shiftr address 8); u8 address]) as [r2 d2].
  destruct r2; cbn [is_ok negb].
  - destruct (rd d2 length) as [[r3 bytes] d3].
    destruct (dis d3 cs) as [r4 d4].
    exists r1, r4, d4. right. now exists r3, bytes.
  - destruct (dis d2 cs) as [r4 d4].
    exists r1, r4, d4. left. exists MEMORY_STATUS_NOK. now split.
  - destruct (dis d2 cs) as [r4 d4].
    exists r1, r4, d4. left. exists MEMORY_STATUS_INVALID_HANDLE. now split.
Qed.

(** X2.  [cat25256_read_register] never reports success without having
    received from the device: when it returns [MEMORY_STATUS_OK] on a valid
    handle, the RDSR byte went through, the read capability was asked for
    exactly one byte and reported [MEMORY_STATUS_OK], and the caller's byte
    is the first byte delivered (or its old value if the capability
    delivered none).  When the RDSR byte does not go through, the result is
    [MEMORY_STATUS_NOK], nothing is received and the caller's byte keeps its
    value. *)
Theorem read_register_ok_means_received handle byte cs d :
  cat25256_check_handle handle = MEMORY_STATUS_OK ->
  (forall v d' e,
     cat25256_read_register handle byte cs d
       = (Val (MEMORY_STATUS_OK, v), d', e) ->
     exists rc_en rc_dis bytes,
       v = hd byte bytes /\
       e = [CsEnable cs rc_en; BusWrite [RDSR] MEMORY_STATUS_OK;
            BusRead 1 bytes MEMORY_STATUS_OK; CsDisable cs rc_dis]) /\
  (existsb is_bus_read (events (cat25256_read_register handle byte cs d))
     = false ->
   outcome (cat25256_read_register handle byte cs d)
     = Val (MEMORY_STATUS_NOK, byte)).
Proof.
  intros H.
  destruct (read_register_run handle byte cs d H)
    as (r1 & r4 & d1 & [(rcw & Hne & ->) | (rc & bytes & ->)]).
  - split.
    + intros v d' e E. discriminate E.
    + intros _. reflexivity.
  - split.
    + intros v d' e E. injection E as -> <- _ <-.
      now exists r1, r4, bytes.
    + cbn. discriminate.
Qed.

End Accessors.

(** ** The address on the wire *)

Section WireAddress.

Context {D : Type}.
Implicit Types handle : option (cat25256_handle_t D).

Lemma header_low_16_bits address :
  u8 (Z.shiftr address 8) = u8 (Z.shiftr (address mod 2 ^ 16) 8) /\
  u8 address = u8 (address mod 2 ^ 16).
Proof.
  unfold u8. change 255 with (Z.ones 8).
  rewrite !Z.land_ones, !Z.shiftr_div_pow2 by lia.
  change (2 ^ 16) with (2 ^ 8 * 2 ^ 8).
  rewrite (Z.rem_mul_r address (2 ^ 8) (2 ^ 8)) by lia.
  pose proof (Z.mod_pos_bound address (2 ^ 8) ltac:(lia)) as Hx.
  pose proof (Z.mod_pos_bound (address / 2 ^ 8) (2 ^ 8) ltac:(lia)) as Hy.
  set (x := address mod 2 ^ 8) in *.
  set (y := (address / 2 ^ 8) mod 2 ^ 8) in *.
  assert (Hdiv : (x + 2 ^ 8 * y) / 2 ^ 8 = y)
    by (symmetry; apply Z.div_unique with (r := x); lia).
  assert (Hmod : (x + 2 ^ 8 * y) mod 2 ^ 8 = x)
    by (symmetry; apply Z.mod_unique with (q := y); lia).
  rewrite Hdiv, Hmod. split.
  - symmetry. apply Z.mod_small. exact Hy.
  - reflexivity.
Qed.

Lemma atomic_write_low_16_bits handle address data length cs :
  cat25256_atomic_write handle address data length cs =
  cat25256_atomic_write handle (address mod 2 ^ 16) data length cs.
Proof.
  unfold cat25256_atomic_write. cbv zeta.
  destruct (header_low_16_bits address) as [<- <-]. reflexivity.
Qed.

Lemma capability_calls_app e1 e2 :
  capability_calls (e1 ++ e2) = capability_calls e1 ++ capability_calls e2.
Proof. apply filter_app. Qed.

Lemma capability_calls_of_page fuel handle address data length cs d :
  capability_calls
    (events (cat25256_write_page fuel handle address data length cs d))
  = events (write_page_body fuel handle address data length cs d).
Proof.
  rewrite write_page_unfold.
  pose proof (bus_only_write_page_body fuel handle address data length cs d)
    as Hb.
  unfold events in *.
  destruct (write_page_body _ _ _ _ _ _ _) as [[[rc| |] d'] e];
    cbn [fst snd] in *; destruct (no_markers _ Hb) as (_ & _ & P);
    change (capability_calls (PageWriteCall address data length :: ?t))
      with (capability_calls t);
    rewrite ?capability_calls_app, P; cbn; now rewrite ?app_nil_r.
Qed.

(** X3.  Only the low 16 bits of [address] reach the device: the header
    carries [address >> 8] and [address] cut to one byte each.  A read at
    [address] is the same run as a read at [address mod 65536], and a
    page-write at [address] makes the same capability calls, with the same
    result and the same effect on the device, as one at
    [address mod 65536]. *)
Theorem address_is_cut_to_16_bits fuel handle address data length cs d :
  cat25256_read handle address data length cs d =
    cat25256_read handle (address mod 2 ^ 16) data length cs d /\
  outcome (cat25256_write_page fuel handle address data length cs d) =
    outcome
      (cat25256_write_page fuel handle (address mod 2 ^ 16) data length cs d)
  /\
  device (cat25256_write_page fuel handle address data length cs d) =
    device
      (cat25256_write_page fuel handle (address mod 2 ^ 16) data length cs d)
  /\
  capability_calls
    (events (cat25256_write_page fuel handle address data length cs d)) =
    capability_calls
      (events
         (cat25256_write_page fuel handle (address mod 2 ^ 16) data length
            cs d)).
Proof.
  assert (Hb : write_page_body fuel handle address data length cs d =
               write_page_body fuel handle (address mod 2 ^ 16) data length
                 cs d).
  { unfold write_page_body.
    now rewrite (atomic_write_low_16_bits handle address). }
  split; [|split; [|split]].
  - unfold cat25256_read, cat25256_atomic_read. cbv zeta.
    destruct (header_low_16_bits address) as [<- <-]. reflexivity.
  - rewrite !write_page_unfold, <- Hb.
    now destruct (write_page_body _ _ _ _ _ _ _) as [[[rc| |] d'] e].
  - rewrite !write_page_unfold, <- Hb.
    now destruct (write_page_body _ _ _ _ _ _ _) as [[[rc| |] d'] e].
  - now rewrite !capability_calls_of_page, Hb.
Qed.

End WireAddress.

(** ** What a page-write sends *)

Section PageWriteTrace.

Context {D : Type}.
Implicit Types handle : option (cat25256_handle_t D).

Lemma bus_writes_app e1 e2 :
  bus_writes (e1 ++ e2) = bus_writes e1 ++ bus_writes e2.
Proof. apply flat_map_app. Qed.

(** X4.  When the status-register write that opens a page-write fails, the
    page-write returns [MEMORY_STATUS_NOK] at once: the two bytes WRSR,
    NREADY are all that was handed to the write capability; the latch is not
    touched and neither header nor payload is sent. *)
Theorem status_write_failure_aborts_page_write
  fuel handle address data length cs d r1 d1 e1 :
  cat25256_check_handle handle = MEMORY_STATUS_OK ->
  cat25256_write_register handle NREADY cs d = (Val r1, d1, e1) ->
  r1 <> MEMORY_STATUS_OK ->
  cat25256_write_page fuel handle address data length cs d =
    (Val MEMORY_STATUS_NOK, d1,
     PageWriteCall address data length
       :: e1 ++ [PageWriteRet MEMORY_STATUS_NOK]) /\
  bus_writes
    (events (cat25256_write_page fuel handle address data length cs d))
    = [[WRSR; NREADY]].
Proof.
  intros Hc H1 Hr1.
  assert (E : cat25256_write_page fuel handle address data length cs d =
              (Val MEMORY_STATUS_NOK, d1,
               PageWriteCall address data length
                 :: e1 ++ [PageWriteRet MEMORY_STATUS_NOK])).
  { rewrite write_page_unfold. unfold write_page_body.
    rewrite Hc. cbn [is_ok negb].
    rewrite (bind_val _ _ _ _ _ _ H1).
    assert (is_ok r1 = false) as -> by (destruct r1; cbn; congruence).
    cbn [negb]. unfold ret, outcome, device, events. cbn [fst snd].
    now rewrite app_nil_r. }
  split; [exact E|]. rewrite E, events_run.
  destruct (write_register_run handle NREADY cs d Hc)
    as (a1 & a2 & a3 & a4 & R1).
  rewrite R1 in H1. injection H1 as _ _ <-. reflexivity.
Qed.

(** X5.  When the latch enable fails, the page-write returns
    [MEMORY_STATUS_NOK] without sending header or payload, and without
    sending the latch disable: the write capability has seen the
    status-register write and the WREN byte only. *)
Theorem latch_enable_failure_aborts_page_write
  fuel handle address data length cs d d1 e1 r2 d2 e2 :
  cat25256_write_register handle NREADY cs d = (Val MEMORY_STATUS_OK, d1, e1) ->
  cat25256_atomic_write_latch_enable handle cs d1 = (Val r2, d2, e2) ->
  r2 <> MEMORY_STATUS_OK ->
  cat25256_write_page fuel handle address data length cs d =
    (Val MEMORY_STATUS_NOK, d2,
     PageWriteCall address data length
       :: e1 ++ e2 ++ [PageWriteRet MEMORY_STATUS_NOK]) /\
  bus_writes
    (events (cat25256_write_page fuel handle address data length cs d))
    = [[WRSR; NREADY]; [WREN]].
Proof.
  intros H1 H2 Hr2.
  pose proof (write_register_ok_valid _ _ _ _ _ _ H1) as Hc.
  assert (E : cat25256_write_page fuel handle address data length cs d =
              (Val MEMORY_STATUS_NOK, d2,
               PageWriteCall address data length
                 :: e1 ++ e2 ++ [PageWriteRet MEMORY_STATUS_NOK])).
  { rewrite write_page_unfold. unfold write_page_body.
    rewrite Hc. cbn [is_ok negb].
    rewrite (bind_val _ _ _ _ _ _ H1). cbn [is_ok negb].
    rewrite (bind_val _ _ _ _ _ _ H2).
    assert (is_ok r2 = false) as -> by (destruct r2; cbn; congruence).
    cbn [negb]. unfold ret, outcome, device, events. cbn [fst snd].
    now rewrite app_nil_r, <- app_assoc. }
  split; [exact E|]. rewrite E, events_run.
  destruct (write_register_run handle NREADY cs d Hc)
    as (a1 & a2 & a3 & a4 & R1).
  destruct (write_latch_run handle WREN cs d1 Hc)
    as (b1 & b2 & b3 & b4 & R2).
  unfold cat25256_atomic_write_latch_enable in H2.
  rewrite R1 in H1. rewrite R2 in H2.
  injection H1 as _ _ <-. injection H2 as _ _ <-. reflexivity.
Qed.

(** The events of a bind: those of the first computation, followed by those
    of the second when the first returned. *)
Lemma bind_events_cases {A B : Type} (m : M D A) (k : A -> M D B) d :
  (outcome (bind m k d) = match outcome (m d) with
                          | Val _ => outcome (bind m k d)
                          | Spin => Spin
                          | Fault => Fault
                          end) /\
  (events (bind m k d) = events (m d) \/
   exists a d1 e1,
     m d = (Val a, d1, e1) /\
     outcome (bind m k d) = outcome (k a d1) /\
     events (bind m k d) = e1 ++ events (k a d1)).
Proof.
  unfold bind, outcome, events.
  destruct (m d) as [[[a| |] d1] e1]; cbn [fst snd]; auto.
  split; [reflexivity|]. right. exists a, d1, e1.
  now destruct (k a d1) as [[r d2] e2].
Qed.

Lemma read_register_only_polls handle byte cs d :
  forallb (is_status_poll cs)
    (events (cat25256_read_register handle byte cs d)) = true.
Proof.
  destruct (check_handle_cases handle) as [H | H].
  - destruct (read_register_run handle byte cs d H)
      as (r1 & r4 & d1 & [(rcw & _ & ->) | (rc & bytes & ->)]);
      cbn; now rewrite Z.eqb_refl.
  - unfold cat25256_read_register. now rewrite H.
Qed.

Lemma wait_loop_only_polls fuel handle cs :
  forall wip d,
    forallb (is_status_poll cs)
      (events (wait_wip_loop fuel handle cs wip d)) = true.
Proof.
  induction fuel as [|fuel IH]; intros wip d; cbn [wait_wip_loop];
    destruct (Z.land wip NREADY =? 0); try reflexivity.
  match goal with
  | |- context [bind ?m ?k d] =>
      destruct (bind_events_cases m k d)
        as (_ & [-> | (r & d1 & e1 & Hr & _ & ->)])
  end.
  - apply read_register_only_polls.
  - pose proof (read_register_only_polls handle wip cs d) as Hp.
    rewrite Hr, events_run in Hp. rewrite forallb_app, Hp.
    destruct (negb (is_ok (fst r))); [reflexivity | apply IH].
Qed.

(** X6.  Whatever the handle and the device do, the busy-wait talks to the
    device through status-register reads only: every byte string it hands
    to the write capability is the single byte RDSR, every reception is of
    one byte, and every chip-select call names the caller's chip-select.
    With an invalid handle it calls nothing. *)
Theorem busy_wait_sends_only_status_reads fuel handle cs d :
  forallb (is_status_poll cs)
    (events (cat25256_atomic_wait_wip_completed fuel handle cs d)) = true /\
  (cat25256_check_handle handle <> MEMORY_STATUS_OK ->
   cat25256_atomic_wait_wip_completed (S fuel) handle cs d
   = (Val MEMORY_STATUS_NOK, d, [])).
Proof.
  split; [apply wait_loop_only_polls|].
  intros H. unfold cat25256_atomic_wait_wip_completed. cbv zeta.
  cbn [wait_wip_loop]. change (Z.land NREADY NREADY =? 0) with false.
  cbv iota. unfold cat25256_read_register, bind.
  destruct (check_handle_cases handle) as [E | E]; [contradiction|].
  rewrite E. reflexivity.
Qed.

(** A busy-wait that returns [MEMORY_STATUS_OK] has received a status
    byte. *)
Lemma wait_loop_ok_has_read fuel handle cs :
  forall wip d,
    Z.land wip NREADY <> 0 ->
    outcome (wait_wip_loop fuel handle cs wip d) = Val MEMORY_STATUS_OK ->
    existsb is_bus_read (events (wait_wip_loop fuel handle cs wip d)) = true.
Proof.
  destruct fuel as [|fuel]; intros wip d Hw; apply Z.eqb_neq in Hw;
    cbn [wait_wip_loop]; rewrite Hw; [discriminate|].
  intros Hok.
  destruct (bind_ok_inv _ _ _ _ Hok) as (r & d1 & e1 & Hr & Hk & ->).
  rewrite existsb_app. apply orb_true_iff. left.
  destruct (is_ok (fst r)) eqn:Hrok; [|discriminate Hk].
  destruct (check_handle_cases handle) as [H | H].
  - destruct (read_register_run handle wip cs d H)
      as (r1 & r4 & d' & [(rcw & _ & E) | (rc & bytes & E)]);
      rewrite E in Hr; injection Hr as <- _ <-; [discriminate Hrok|].
    reflexivity.
  - unfold cat25256_read_register in Hr. rewrite H in Hr.
    injection Hr as <- _ _. discriminate Hrok.
Qed.

(** X7.  A page-write that returns [MEMORY_STATUS_OK] has done all of the
    protocol, in this order and each in a chip-select scope of its own: the
    status-register write (WRSR, NREADY), WREN, then header and the first
    [length] bytes of [data] in one scope, each of these transfers reporting
    [MEMORY_STATUS_OK]; then WRDI, whatever it reports; then status reads
    only, at least one of which received a byte. *)
Theorem page_write_ok_means_sent fuel handle address data length cs d :
  outcome (cat25256_write_page fuel handle address data length cs d)
    = Val MEMORY_STATUS_OK ->
  exists rl e5,
    map forget_cs_status
      (events (cat25256_write_page fuel handle address data length cs d)) =
    [PageWriteCall address data length;
     CsEnable cs MEMORY_STATUS_OK;
     BusWrite [WRSR; NREADY] MEMORY_STATUS_OK;
     CsDisable cs MEMORY_STATUS_OK;
     CsEnable cs MEMORY_STATUS_OK;
     BusWrite [WREN] MEMORY_STATUS_OK;
     CsDisable cs MEMORY_STATUS_OK;
     CsEnable cs MEMORY_STATUS_OK;
     BusWrite [WRITE; u8 (Z.shiftr address 8); u8 address] MEMORY_STATUS_OK;
     BusWrite (firstn (Z.to_nat length) data) MEMORY_STATUS_OK;
     CsDisable cs MEMORY_STATUS_OK;
     CsEnable cs MEMORY_STATUS_OK;
     BusWrite [WRDI] rl;
     CsDisable cs MEMORY_STATUS_OK]
    ++ map forget_cs_status e5 ++ [PageWriteRet MEMORY_STATUS_OK] /\
    forallb (is_status_poll cs) e5 = true /\
    existsb is_bus_read e5 = true.
Proof.
  rewrite write_page_unfold.
  destruct (write_page_body fuel handle address data length cs d)
    as [[[rc| |] d'] e] eqn:Hb; rewrite outcome_run; try discriminate.
  intros Hrc. injection Hrc as ->.
  assert (Hbo : outcome (write_page_body fuel handle address data length cs d)
                = Val MEMORY_STATUS_OK) by now rewrite Hb.
  assert (Hbe : events (write_page_body fuel handle address data length cs d)
                = e) by now rewrite Hb.
  clear Hb. unfold write_page_body in Hbo, Hbe.
  destruct (check_handle_cases handle) as [Hc | Hc]; rewrite Hc in Hbo, Hbe;
    cbn [is_ok negb] in Hbo, Hbe; [|discriminate Hbo].
  destruct (write_register_run handle NREADY cs d Hc)
    as (a1 & r1 & a3 & d1 & R1).
  rewrite (bind_val _ _ _ _ _ _ R1), outcome_run in Hbo.
  rewrite (bind_val _ _ _ _ _ _ R1), events_run in Hbe.
  destruct r1; cbn [is_ok negb] in Hbo, Hbe; try discriminate Hbo.
  destruct (write_latch_run handle WREN cs d1 Hc)
    as (b1 & r2 & b3 & d2 & R2).
  fold (cat25256_atomic_write_latch_enable handle cs d1) in R2.
  rewrite (bind_val _ _ _ _ _ _ R2), outcome_run in Hbo.
  rewrite (bind_val _ _ _ _ _ _ R2), events_run in Hbe.
  destruct r2; cbn [is_ok negb] in Hbo, Hbe; try discriminate Hbo.
  destruct (atomic_write_run handle address data length cs d2 Hc)
    as (c1 & c3 & d3 & [(rch & _ & R3) | (r3 & R3)]);
    rewrite (bind_val _ _ _ _ _ _ R3), outcome_run in Hbo;
    rewrite (bind_val _ _ _ _ _ _ R3), events_run in Hbe;
    cbn [is_ok negb] in Hbo, Hbe.
  { destruct (write_latch_run handle WRDI cs d3 Hc)
      as (f1 & rl & f3 & d4 & R4).
    fold (cat25256_atomic_write_latch_disable handle cs d3) in R4.
    rewrite (bind_val _ _ _ _ _ _ R4), outcome_run in Hbo.
    discriminate Hbo. }
  destruct r3; cbn [is_ok negb] in Hbo, Hbe;
    destruct (write_latch_run handle WRDI cs d3 Hc)
      as (f1 & rl & f3 & d4 & R4);
    fold (cat25256_atomic_write_latch_disable handle cs d3) in R4;
    rewrite (bind_val _ _ _ _ _ _ R4), outcome_run in Hbo;
    rewrite (bind_val _ _ _ _ _ _ R4), events_run in Hbe;
    try discriminate Hbo.
  destruct (bind_ok_inv _ _ _ _ Hbo) as (r5 & d5 & e5 & R5 & Hk & Hev).
  rewrite Hev in Hbe.
  destruct r5; cbn [is_ok negb] in Hk, Hbe; try discriminate Hk.
  unfold ret in Hbe. rewrite events_run, app_nil_r in Hbe.
  exists rl, e5. subst e.
  split; [|split].
  - rewrite events_run. cbn [app map forget_cs_status].
    rewrite map_app. reflexivity.
  - pose proof (wait_loop_only_polls fuel handle cs NREADY d4) as Hp.
    unfold cat25256_atomic_wait_wip_completed in R5. cbv zeta in R5.
    now rewrite R5, events_run in Hp.
  - unfold cat25256_atomic_wait_wip_completed in R5. cbv zeta in R5.
    pose proof (wait_loop_ok_has_read fuel handle cs NREADY d4
                  ltac:(discriminate)) as Hp.
    rewrite R5, outcome_run, events_run in Hp. now apply Hp.
Qed.

End PageWriteTrace.

(** ** Which statuses a write can return *)

Section WriteStatuses.

Context {D : Type}.
Implicit Types handle : option (cat25256_handle_t D).

Lemma returns_only_ret {A : Type} (P : A -> Prop) (a : A) :
  P a -> returns_only (D := D) P (ret a).
Proof. intros H d. exact H. Qed.

Lemma returns_only_bind {A B : Type} (Q : A -> Prop) (P : B -> Prop)
  (m : M D A) (k : A -> M D B) :
  returns_only Q m -> (forall a, Q a -> returns_only P (k a)) ->
  returns_only P (bind m k).
Proof.
  intros Hm Hk d. specialize (Hm d). unfold bind, outcome in *.
  destruct (m d) as [[[a| |] d1] e1]; cbn [fst snd] in *; auto.
  specialize (Hk a Hm d1). unfold outcome in Hk.
  now destruct (k a d1) as [[r d2] e2].
Qed.

Lemma returns_only_any {A : Type} (m : M D A) :
  returns_only (fun _ => True) m.
Proof. intros d. now destruct (outcome (m d)). Qed.

Lemma returns_only_if {A : Type} (P : A -> Prop) (b : bool) (m1 m2 : M D A) :
  returns_only P m1 -> returns_only P m2 ->
  returns_only P (if b then m1 else m2).
Proof. now destruct b. Qed.

Lemma write_page_ok_or_nok fuel handle address data length cs :
  cat25256_check_handle handle = MEMORY_STATUS_OK ->
  returns_only ok_or_nok
    (cat25256_write_page fuel handle address data length cs).
Proof.
  intros Hc. unfold cat25256_write_page.
  apply (returns_only_bind (fun _ => True)); [apply returns_only_any|].
  intros _ _.
  apply (returns_only_bind ok_or_nok).
  - unfold write_page_body. rewrite Hc. cbn [is_ok negb].
    repeat first
      [ apply returns_only_ret; (left + right); reflexivity
      | apply returns_only_if
      | apply (returns_only_bind (fun _ => True));
        [apply returns_only_any | intros ? _] ].
  - intros rc Hrc.
    apply (returns_only_bind (fun _ => True)); [apply returns_only_any|].
    intros _ _. now apply returns_only_ret.
Qed.

Lemma write_aligned_loop_ok_or_nok fuel handle address data length cs pc n :
  cat25256_check_handle handle = MEMORY_STATUS_OK ->
  forall i,
    returns_only ok_or_nok
      (write_aligned_loop fuel handle address data length cs pc n i).
Proof.
  intros Hc. induction n as [|n IH]; intros i; cbn [write_aligned_loop].
  - apply returns_only_ret. now left.
  - apply (returns_only_bind ok_or_nok).
    + apply returns_only_if; now apply write_page_ok_or_nok.
    + intros rc Hrc.
      apply returns_only_if; [now apply returns_only_ret | apply IH].
Qed.

Lemma write_ok_or_nok fuel handle address data length cs :
  cat25256_check_handle handle = MEMORY_STATUS_OK ->
  returns_only ok_or_nok (cat25256_write fuel handle address data length cs).
Proof.
  intros Hc. unfold cat25256_write.
  apply returns_only_if; [now apply write_page_ok_or_nok|].
  apply returns_only_if.
  - unfold cat25256_write_address_aligned. cbv zeta.
    now apply write_aligned_loop_ok_or_nok.
  - unfold cat25256_write_address_unaligned. cbv zeta.
    apply (returns_only_bind ok_or_nok);
      [now apply write_page_ok_or_nok|].
    intros rc Hrc.
    apply returns_only_if; [now apply returns_only_ret|].
    apply returns_only_if; [|now apply returns_only_ret].
    unfold cat25256_write_address_aligned. cbv zeta.
    now apply write_aligned_loop_ok_or_nok.
Qed.

Lemma check_handle_invalid_inv handle :
  cat25256_check_handle handle = MEMORY_STATUS_INVALID_HANDLE ->
  invalid_handle handle.
Proof.
  destruct handle as [[[rd|] [wr|] [en|] [dis|]]|]; cbn;
    try discriminate; auto.
Qed.

(** X8.  [cat25256_write_page] and [cat25256_write] return
    [MEMORY_STATUS_INVALID_HANDLE] exactly when the handle is invalid.  On a
    valid handle they return [MEMORY_STATUS_OK] or [MEMORY_STATUS_NOK] and
    nothing else, whatever statuses the capabilities report (a capability
    that itself answers [MEMORY_STATUS_INVALID_HANDLE] is turned into
    [MEMORY_STATUS_NOK]). *)
Theorem write_reports_invalid_handle_only_for_invalid_handles
  fuel handle address data length cs d :
  (outcome (cat25256_write_page fuel handle address data length cs d)
     = Val MEMORY_STATUS_INVALID_HANDLE <-> invalid_handle handle) /\
  (outcome (cat25256_write fuel handle address data length cs d)
     = Val MEMORY_STATUS_INVALID_HANDLE <-> invalid_handle handle).
Proof.
  split; split.
  - intros H. destruct (check_handle_cases handle) as [Hc | Hc];
      [|now apply check_handle_invalid_inv].
    pose proof (write_page_ok_or_nok fuel handle address data length cs Hc d)
      as Hr.
    rewrite H in Hr. destruct Hr; discriminate.
  - intros H. now rewrite write_page_invalid.
  - intros H. destruct (check_handle_cases handle) as [Hc | Hc];
      [|now apply check_handle_invalid_inv].
    pose proof (write_ok_or_nok fuel handle address data length cs Hc d)
      as Hr.
    rewrite H in Hr. destruct Hr; discriminate.
  - intros H.
    destruct (write_invalid handle fuel address data length cs d H)
      as (a & dt & l & ->).
    reflexivity.
Qed.

End WriteStatuses.

(** ** Page boundaries and the caller's bytes *)

Section Pages.

Context {D : Type}.
Implicit Types handle : option (cat25256_handle_t D).

(** Every page-write the loop starts, whether the loop completes or not,
    begins on a page boundary and is at most one page long. *)
Lemma write_aligned_loop_fits fuel handle address data length cs pc n :
  forall i d,
    0 <= address -> address mod PAGE_SIZE = 0 ->
    0 <= i -> i + Z.of_nat n <= pc ->
    pc * PAGE_SIZE < 2 ^ 31 -> address + pc * PAGE_SIZE <= 2 ^ 32 ->
    Forall fits_page
      (page_calls
         (events
            (write_aligned_loop fuel handle address data length cs pc n i d))).
Proof.
  unfold PAGE_SIZE.
  induction n as [|n IH]; intros i d Ha Hal Hi Hpc Hint Hu32.
  - constructor.
  - cbn [write_aligned_loop]. unfold PAGE_SIZE.
    assert (Hi32 : int32 (i * 64) = i * 64) by (apply int32_small; lia).
    assert (Hadr : u32 (address + int32 (i * 64)) = address + i * 64)
      by (rewrite Hi32; apply u32_small; lia).
    rewrite Hadr, Hi32.
    set (dt := skipn (Z.to_nat (i * 64)) data).
    assert (E : forall len1 len2,
               (if i =? pc - 1
                then cat25256_write_page fuel handle (address + i * 64) dt
                       len1 cs
                else cat25256_write_page fuel handle (address + i * 64) dt
                       len2 cs)
               = cat25256_write_page fuel handle (address + i * 64) dt
                   (if i =? pc - 1 then len1 else len2) cs)
      by (intros; now destruct (i =? pc - 1)).
    rewrite E. clear E.
    set (l := if i =? pc - 1 then length mod 64 else 64).
    assert (Hfit : fits_page (address + i * 64, dt, l)).
    { unfold fits_page, PAGE_SIZE. cbn [fst snd].
      rewrite Z.mod_add by discriminate. rewrite Hal.
      pose proof (Z.mod_pos_bound length 64 ltac:(lia)).
      subst l. destruct (i =? pc - 1); lia. }
    pose proof (write_page_calls fuel handle (address + i * 64) dt l cs d)
      as Hc.
    match goal with
    | |- context [bind ?m ?k d] =>
        destruct (bind_events_cases m k d)
          as (_ & [-> | (rc & d1 & e1 & Hw & _ & ->)])
    end.
    + rewrite Hc. now constructor.
    + rewrite Hw, events_run in Hc. rewrite page_calls_app, Hc.
      constructor; [exact Hfit|].
      destruct (negb (is_ok rc)); [constructor|].
      apply IH; lia.
Qed.

Lemma page_count_bounds length :
  0 < length ->
  let pc := if negb (length mod PAGE_SIZE =? 0)
            then length / PAGE_SIZE + 1 else length / PAGE_SIZE in
  1 <= pc /\ pc * PAGE_SIZE < length + PAGE_SIZE.
Proof.
  unfold PAGE_SIZE. intros Hl. cbv zeta.
  pose proof (Z.div_mod length 64 ltac:(lia)) as Hdm.
  pose proof (Z.mod_pos_bound length 64 ltac:(lia)) as Hmod.
  destruct (Z.eqb_spec (length mod 64) 0) as [E|E]; cbn [negb]; lia.
Qed.

Lemma write_address_aligned_fits fuel handle address data length cs d :
  0 <= address -> address mod PAGE_SIZE = 0 -> 0 < length ->
  length + PAGE_SIZE < 2 ^ 31 -> address + length + PAGE_SIZE <= 2 ^ 32 ->
  Forall fits_page
    (page_calls
       (events
          (cat25256_write_address_aligned fuel handle address data length
             cs d))).
Proof.
  intros Ha Hal Hl Hint Hu32.
  unfold cat25256_write_address_aligned. cbv zeta.
  destruct (page_count_bounds length Hl) as (Hpos & Hub).
  apply write_aligned_loop_fits; unfold PAGE_SIZE in *; lia.
Qed.

(** X9.  A write longer than one page never asks for a page-write that
    crosses a page boundary: every page-write it starts, in runs that
    succeed, fail or are still busy-waiting alike, has a length between 0
    and the room left in the page of its address.  (Writes of at most one
    page carry no such guarantee: they are passed on as they are.) *)
Theorem long_write_never_crosses_a_page fuel handle address data length cs d :
  0 <= address -> PAGE_SIZE < length ->
  length + PAGE_SIZE < 2 ^ 31 -> address + length + PAGE_SIZE <= 2 ^ 32 ->
  Forall fits_page
    (page_calls (events (cat25256_write fuel handle address data length cs d))).
Proof.
  intros Ha Hl Hint Hu32. unfold cat25256_write.
  apply Z.leb_gt in Hl as Hl'. rewrite Hl'.
  destruct (Z.eqb_spec (address mod PAGE_SIZE) 0) as [Hal | Hal].
  - apply write_address_aligned_fits; unfold PAGE_SIZE in *; lia.
  - unfold cat25256_write_address_unaligned. cbv zeta.
    pose proof (Z.mod_pos_bound address PAGE_SIZE ltac:(reflexivity)) as Hm.
    set (first := PAGE_SIZE - address mod PAGE_SIZE) in *.
    assert (Hps : PAGE_SIZE = 64) by reflexivity.
    assert (Hgt : (first >? length) = false)
      by (rewrite Z.gtb_ltb; apply Z.ltb_ge; lia).
    rewrite Hgt.
    assert (Hfit : fits_page (address, data, first))
      by (unfold fits_page; cbn [fst snd]; lia).
    pose proof (write_page_calls fuel handle address data first cs d) as Hc.
    match goal with
    | |- context [bind ?m ?k d] =>
        destruct (bind_events_cases m k d)
          as (_ & [-> | (rc & d1 & e1 & Hw & _ & ->)])
    end.
    + rewrite Hc. now constructor.
    + rewrite Hw, events_run in Hc. rewrite page_calls_app, Hc.
      constructor; [exact Hfit|].
      destruct (negb (is_ok rc)); [constructor|].
      assert (Hi : int32 (length - first) = length - first)
        by (apply int32_small; lia).
      rewrite Hi, (u32_small (length - first)), (u32_small (address + first))
        by lia.
      destruct (length - first >? 0); [|constructor].
      apply write_address_aligned_fits; try lia.
      subst first.
      replace (address + (PAGE_SIZE - address mod PAGE_SIZE))
        with (address - address mod PAGE_SIZE + 1 * PAGE_SIZE) by lia.
      rewrite Z.mod_add by discriminate.
      rewrite Zminus_mod_idemp_r, Z.sub_diag. reflexivity.
Qed.

Lemma firstn_add_skipn {A : Type} (n m : nat) (l : list A) :
  firstn (n + m) l = firstn n l ++ firstn m (skipn n l).
Proof.
  revert l. induction n as [|n IH]; intros l; [reflexivity|].
  destruct l as [|x l]; cbn.
  - now rewrite firstn_nil.
  - now rewrite IH.
Qed.

(** Page-writes that tile a range take, one after the other, the first
    bytes of the caller's buffer, each byte once. *)
Lemma covers_from_payloads calls :
  forall a data,
    covers_from a data calls ->
    0 <= total_length calls /\
    payloads calls = firstn (Z.to_nat (total_length calls)) data.
Proof.
  induction calls as [|[[a' dt] l] calls IH]; intros a data H.
  - split; [reflexivity|]. reflexivity.
  - cbn [covers_from] in H. destruct H as (-> & -> & Hl & H).
    destruct (IH _ _ H) as (Hpos & Hp).
    unfold payloads in *. unfold total_length in *.
    cbn [flat_map fold_right fst snd]. rewrite Hp.
    split; [lia|].
    rewrite Z2Nat.inj_add by lia. now rewrite firstn_add_skipn.
Qed.

(** X10.  A write of more than one page at a page-aligned address that
    returns [MEMORY_STATUS_OK] has made [ceil (length / 64)] page-writes that
    follow one another from [address] on without gap or overlap, each at
    most one page long, and whose data are consecutive pieces of the
    caller's buffer, starting at its first byte.  Together they carry
    [length] bytes, except when [length] is a multiple of the page size:
    then the last page-write has length 0 and they carry [length - 64]
    bytes. *)
Theorem aligned_write_tiles_the_range fuel handle address data length cs d :
  0 <= address -> address mod PAGE_SIZE = 0 -> PAGE_SIZE < length ->
  length + PAGE_SIZE < 2 ^ 31 -> address + length + PAGE_SIZE <= 2 ^ 32 ->
  outcome (cat25256_write fuel handle address data length cs d)
    = Val MEMORY_STATUS_OK ->
  let calls :=
    page_calls (events (cat25256_write fuel handle address data length cs d))
  in
  let sent :=
    if length mod PAGE_SIZE =? 0 then length - PAGE_SIZE else length in
  covers_from address data calls /\
  Z.of_nat (List.length calls) = (length + PAGE_SIZE - 1) / PAGE_SIZE /\
  total_length calls = sent /\
  payloads calls = firstn (Z.to_nat sent) data.
Proof.
  intros Ha Hal Hl Hint Hu32 Hok calls sent.
  destruct (write_aligned_covers fuel handle address data length cs d
              Ha Hal Hl Hint Hu32 Hok) as (Hcov & Hn & Htot).
  fold calls in Hcov, Hn, Htot. fold sent in Htot.
  repeat split; try assumption.
  destruct (covers_from_payloads calls address data Hcov) as (_ & Hp).
  now rewrite Hp, Htot.
Qed.

(** X11.  A write of more than one page at an address that is not
    page-aligned and that returns [MEMORY_STATUS_OK]: its first page-write
    takes the [64 - address mod 64] bytes up to the next page boundary; the
    page-writes follow one another from [address] on without gap or
    overlap, their data being consecutive pieces of the caller's buffer.
    Together they carry [length] bytes, except when what is left after the
    first page-write is a multiple of the page size: then the last
    page-write has length 0 and they carry [length - 64] bytes. *)
Theorem unaligned_write_tiles_the_range fuel handle address data length cs d :
  0 <= address -> address mod PAGE_SIZE <> 0 -> PAGE_SIZE < length ->
  length + PAGE_SIZE < 2 ^ 31 -> address + length + PAGE_SIZE <= 2 ^ 32 ->
  outcome (cat25256_write fuel handle address data length cs d)
    = Val MEMORY_STATUS_OK ->
  let calls :=
    page_calls (events (cat25256_write fuel handle address data length cs d))
  in
  let first := PAGE_SIZE - address mod PAGE_SIZE in
  let sent :=
    if (length - first) mod PAGE_SIZE =? 0
    then length - PAGE_SIZE else length in
  hd_error calls = Some (address, data, first) /\
  covers_from address data calls /\
  total_length calls = sent /\
  payloads calls = firstn (Z.to_nat sent) data.
Proof.
  intros Ha Hal Hl Hint Hu32 Hok calls first sent.
  destruct (write_unaligned_covers fuel handle address data length cs d
              Ha Hal Hl Hint Hu32 Hok) as (rest & Hc & _ & Hcov & Htot).
  fold calls in Hc. fold first in Hc, Hcov, Htot.
  pose proof (Z.mod_pos_bound address PAGE_SIZE ltac:(reflexivity)) as Hm.
  assert (Hcov' : covers_from address data calls).
  { rewrite Hc. cbn [covers_from]. repeat split; try assumption;
      subst first; lia. }
  assert (Htot' : total_length calls = sent).
  { rewrite Hc. unfold total_length in *. cbn [fold_right snd].
    rewrite Htot. subst sent.
    destruct ((length - first) mod PAGE_SIZE =? 0); lia. }
  split; [now rewrite Hc|]. split; [exact Hcov'|]. split; [exact Htot'|].
  destruct (covers_from_payloads calls address data Hcov') as (_ & Hp).
  now rewrite Hp, Htot'.
Qed.

Lemma int32_high z : 2 ^ 31 <= z < 2 ^ 32 -> int32 z = z - 2 ^ 32.
Proof.
  intros H. unfold int32.
  rewrite <- (Z.mod_unique (z + 2 ^ 31) (2 ^ 32) 1 (z + 2 ^ 31 - 2 ^ 32));
    lia.
Qed.

(** X12.  [cat25256_write_address_unaligned] keeps the number of bytes left
    after the first page-write in an [int].  For a length of 2^31 + 64 or
    more at an unaligned address that number does not fit: it comes out
    negative (two's-complement conversion), the test [> 0] fails, and the
    write ends after its first page-write with that page-write's status.
    So such a write that returns [MEMORY_STATUS_OK] has carried fewer than
    64 bytes. *)
Theorem huge_unaligned_write_ends_after_first_page
  fuel handle address data length cs d :
  0 <= address -> address mod PAGE_SIZE <> 0 ->
  2 ^ 31 + PAGE_SIZE <= length < 2 ^ 32 ->
  let first := PAGE_SIZE - address mod PAGE_SIZE in
  page_calls (events (cat25256_write fuel handle address data length cs d))
    = [(address, data, first)] /\
  outcome (cat25256_write fuel handle address data length cs d)
    = outcome (cat25256_write_page fuel handle address data first cs d) /\
  device (cat25256_write fuel handle address data length cs d)
    = device (cat25256_write_page fuel handle address data first cs d).
Proof.
  intros Ha Hal Hl first. unfold cat25256_write.
  assert (Hps : PAGE_SIZE = 64) by reflexivity.
  assert (Hl' : (length <=? PAGE_SIZE) = false) by (apply Z.leb_gt; lia).
  rewrite Hl'. apply Z.eqb_neq in Hal as Hal'. rewrite Hal'.
  unfold cat25256_write_address_unaligned. cbv zeta.
  pose proof (Z.mod_pos_bound address PAGE_SIZE ltac:(reflexivity)) as Hm.
  fold first.
  assert (Hgt : (first >? length) = false)
    by (rewrite Z.gtb_ltb; apply Z.ltb_ge; subst first; lia).
  rewrite Hgt.
  assert (Hneg : (int32 (length - first) >? 0) = false).
  { rewrite int32_high by (subst first; lia).
    rewrite Z.gtb_ltb. apply Z.ltb_ge. lia. }
  rewrite Hneg.
  pose proof (write_page_calls fuel handle address data first cs d) as Hc.
  unfold bind, outcome, device, events in *.
  destruct (cat25256_write_page fuel handle address data first cs d)
    as [[[rc| |] d1] e1]; cbn [fst snd] in *; auto.
  destruct (negb (is_ok rc)); unfold ret; cbn [fst snd];
    now rewrite app_nil_r.
Qed.

End Pages.

(** ** A bus that works *)

Section WorkingBus.

Context {D : Type}.

Lemma always_returns_ret {A : Type} (P : A -> Prop) (a : A) :
  P a -> always_returns (D := D) P (ret a).
Proof. intros H d. now exists a. Qed.

Lemma always_returns_bind {A B : Type} (Q : A -> Prop) (P : B -> Prop)
  (m : M D A) (k : A -> M D B) :
  always_returns Q m -> (forall a, Q a -> always_returns P (k a)) ->
  always_returns P (bind m k).
Proof.
  intros Hm Hk d. destruct (Hm d) as (a & Ha & Hq).
  unfold bind, outcome in *.
  destruct (m d) as [[r d1] e1]. cbn [fst snd] in Ha. subst r.
  destruct (Hk a Hq d1) as (b & Hb & Hp). unfold outcome in Hb.
  destruct (k a d1) as [[r d2] e2]. cbn [fst snd] in *. now exists b.
Qed.

Lemma always_returns_emit e :
  always_returns (D := D) (fun _ => True) (emit e).
Proof. intros d. now exists tt. Qed.

Variables (rd : D -> Z -> memory_status_t * list Z * D)
          (wr : D -> list Z -> memory_status_t * D)
          (en dis : D -> Z -> memory_status_t * D).

Hypothesis writes_succeed :
  forall d bytes, fst (wr d bytes) = MEMORY_STATUS_OK.
Hypothesis status_reads_ready : forall d, ready_byte (fst (rd d 1)).

Local Abbreviation h :=
  (Some {| read := Some rd; write := Some wr;
           cs_enable := Some en; cs_disable := Some dis |}).

Lemma working_cs_enable cs :
  always_returns (fun _ => True) (call_cs_enable h cs).
Proof.
  intros d. cbn. destruct (en d cs) as [rc d']. now exists rc.
Qed.

Lemma working_cs_disable cs :
  always_returns (fun _ => True) (call_cs_disable h cs).
Proof.
  intros d. cbn. destruct (dis d cs) as [rc d']. now exists rc.
Qed.

Lemma working_write bytes :
  always_returns (fun rc => rc = MEMORY_STATUS_OK) (call_write h bytes).
Proof.
  intros d. cbn. pose proof (writes_succeed d bytes) as H.
  destruct (wr d bytes) as [rc d']. now exists rc.
Qed.

Lemma working_read_status :
  always_returns ready_byte (call_read h 1).
Proof.
  intros d. cbn. pose proof (status_reads_ready d) as H.
  destruct (rd d 1) as [[rc bytes] d']. now exists (rc, bytes).
Qed.

Lemma working_write_latch enable cs :
  always_returns (fun rc => rc = MEMORY_STATUS_OK)
    (cat25256_atomic_write_latch h enable cs).
Proof.
  unfold cat25256_atomic_write_latch.
  apply (always_returns_bind (fun _ => True)); [apply working_cs_enable|].
  intros _ _.
  apply (always_returns_bind (fun rc => rc = MEMORY_STATUS_OK));
    [apply working_write|].
  intros rc ->.
  apply (always_returns_bind (fun _ => True)); [apply working_cs_disable|].
  intros _ _. now apply always_returns_ret.
Qed.

Lemma working_write_register byte cs :
  always_returns (fun rc => rc = MEMORY_STATUS_OK)
    (cat25256_write_register h byte cs).
Proof.
  unfold cat25256_write_register.
  cbn [cat25256_check_handle read write cs_enable cs_disable is_ok negb].
  apply (always_returns_bind (fun _ => True)); [apply working_cs_enable|].
  intros _ _.
  apply (always_returns_bind (fun rc => rc = MEMORY_STATUS_OK));
    [apply working_write|].
  intros rc ->.
  apply (always_returns_bind (fun _ => True)); [apply working_cs_disable|].
  intros _ _. now apply always_returns_ret.
Qed.

Lemma working_atomic_write address data length cs :
  always_returns (fun rc => rc = MEMORY_STATUS_OK)
    (cat25256_atomic_write h address data length cs).
Proof.
  unfold cat25256_atomic_write. cbv zeta.
  apply (always_returns_bind (fun _ => True)); [apply working_cs_enable|].
  intros _ _.
  apply (always_returns_bind (fun rc => rc = MEMORY_STATUS_OK));
    [apply working_write|].
  intros rc ->. cbn [is_ok negb].
  apply (always_returns_bind (fun rc => rc = MEMORY_STATUS_OK));
    [apply working_write|].
  intros rc ->.
  apply (always_returns_bind (fun _ => True)); [apply working_cs_disable|].
  intros _ _. now apply always_returns_ret.
Qed.

Lemma working_read_register byte cs :
  always_returns
    (fun r => fst r = MEMORY_STATUS_OK /\ Z.land (snd r) NREADY = 0)
    (cat25256_read_register h byte cs).
Proof.
  unfold cat25256_read_register.
  cbn [cat25256_check_handle read write cs_enable cs_disable is_ok negb].
  apply (always_returns_bind (fun _ => True)); [apply working_cs_enable|].
  intros _ _.
  apply (always_returns_bind (fun rc => rc = MEMORY_STATUS_OK));
    [apply working_write|].
  intros rc ->. cbn [is_ok negb].
  apply (always_returns_bind ready_byte); [apply working_read_status|].
  intros r (Hok & b & rest & Hb & Hz).
  apply (always_returns_bind (fun _ => True)); [apply working_cs_disable|].
  intros _ _. apply always_returns_ret. cbn [fst snd].
  rewrite Hb. now split.
Qed.

Lemma working_wait fuel cs :
  always_returns (fun rc => rc = MEMORY_STATUS_OK)
    (cat25256_atomic_wait_wip_completed (S fuel) h cs).
Proof.
  unfold cat25256_atomic_wait_wip_completed. cbv zeta.
  cbn [wait_wip_loop]. change (Z.land NREADY NREADY =? 0) with false.
  cbv iota.
  apply (always_returns_bind
           (fun r => fst r = MEMORY_STATUS_OK /\ Z.land (snd r) NREADY = 0));
    [apply working_read_register|].
  intros r (Hok & Hz). rewrite Hok. cbn [is_ok negb].
  intros d. rewrite (wait_loop_ready fuel h cs (snd r) d Hz).
  now exists MEMORY_STATUS_OK.
Qed.

Lemma working_write_page fuel address data length cs :
  always_returns (fun rc => rc = MEMORY_STATUS_OK)
    (cat25256_write_page (S fuel) h address data length cs).
Proof.
  unfold cat25256_write_page.
  apply (always_returns_bind (fun _ => True)); [apply always_returns_emit|].
  intros _ _.
  apply (always_returns_bind (fun rc => rc = MEMORY_STATUS_OK)).
  - unfold write_page_body.
    cbn [cat25256_check_handle read write cs_enable cs_disable is_ok negb].
    apply (always_returns_bind (fun rc => rc = MEMORY_STATUS_OK));
      [apply working_write_register|].
    intros r1 ->. cbn [is_ok negb].
    apply (always_returns_bind (fun rc => rc = MEMORY_STATUS_OK));
      [apply working_write_latch|].
    intros r2 ->. cbn [is_ok negb].
    apply (always_returns_bind (fun rc => rc = MEMORY_STATUS_OK));
      [apply working_atomic_write|].
    intros r3 ->. cbn [is_ok negb].
    apply (always_returns_bind (fun rc => rc = MEMORY_STATUS_OK));
      [apply working_write_latch|].
    intros r4 _.
    apply (always_returns_bind (fun rc => rc = MEMORY_STATUS_OK));
      [apply working_wait|].
    intros r5 ->. cbn [is_ok negb]. now apply always_returns_ret.
  - intros rc ->.
    apply (always_returns_bind (fun _ => True)); [apply always_returns_emit|].
    intros _ _. now apply always_returns_ret.
Qed.

Lemma working_write_aligned_loop fuel address data length cs pc n :
  forall i,
    always_returns (fun rc => rc = MEMORY_STATUS_OK)
      (write_aligned_loop (S fuel) h address data length cs pc n i).
Proof.
  induction n as [|n IH]; intros i; cbn [write_aligned_loop].
  - now apply always_returns_ret.
  - apply (always_returns_bind (fun rc => rc = MEMORY_STATUS_OK)).
    + destruct (i =? pc - 1); apply working_write_page.
    + intros rc ->. cbn [is_ok negb]. apply IH.
Qed.

Lemma working_write_all fuel address data length cs :
  always_returns (fun rc => rc = MEMORY_STATUS_OK)
    (cat25256_write (S fuel) h address data length cs).
Proof.
  unfold cat25256_write.
  destruct (length <=? PAGE_SIZE); [apply working_write_page|].
  destruct (address mod PAGE_SIZE =? 0).
  - unfold cat25256_write_address_aligned. cbv zeta.
    apply working_write_aligned_loop.
  - unfold cat25256_write_address_unaligned. cbv zeta.
    apply (always_returns_bind (fun rc => rc = MEMORY_STATUS_OK));
      [apply working_write_page|].
    intros rc ->. cbn [is_ok negb].
    match goal with
    | |- context [if ?b then _ else _] => destruct b
    end.
    + unfold cat25256_write_address_aligned. cbv zeta.
      apply working_write_aligned_loop.
    + now apply always_returns_ret.
Qed.

End WorkingBus.

(** X13.  On a valid handle whose write capability always reports
    [MEMORY_STATUS_OK] and whose read capability, asked for one byte, always
    reports [MEMORY_STATUS_OK] and delivers a byte with bit 0 clear, every
    [cat25256_write] and every [cat25256_write_page] returns
    [MEMORY_STATUS_OK], for every address, buffer and length, with a single
    status poll per page-write, and whatever the chip-select capabilities
    report. *)
Theorem write_succeeds_on_a_working_bus {D : Type}
  (rd : D -> Z -> memory_status_t * list Z * D)
  (wr : D -> list Z -> memory_status_t * D)
  (en dis : D -> Z -> memory_status_t * D) :
  (forall d bytes, fst (wr d bytes) = MEMORY_STATUS_OK) ->
  (forall d, ready_byte (fst (rd d 1))) ->
  let h := Some {| read := Some rd; write := Some wr;
                   cs_enable := Some en; cs_disable := Some dis |} in
  forall address data length cs d,
    outcome (cat25256_write_page 1 h address data length cs d)
      = Val MEMORY_STATUS_OK /\
    outcome (cat25256_write 1 h address data length cs d)
      = Val MEMORY_STATUS_OK.
Proof.
  intros Hw Hr h address data length cs d. split.
  - destruct (working_write_page rd wr en dis Hw Hr 0 address data length
                cs d) as (rc & E & ->).
    exact E.
  - destruct (working_write_all rd wr en dis Hw Hr 0 address data length
                cs d) as (rc & E & ->).
    exact E.
Qed.

(** ** The further properties at work on the bench *)

Lemma read_is_one_framed_exchange_witness :
  cat25256_check_handle (Some (bench_handle None MEMORY_STATUS_OK))
    = MEMORY_STATUS_OK /\
  exists rc_en rc_dis d',
    (exists rch,
       rch <> MEMORY_STATUS_OK /\
       cat25256_read (Some (bench_handle None MEMORY_STATUS_OK))
         4660 [9; 9; 9] 2 0 (bench0 0) =
       (Val (MEMORY_STATUS_NOK, [9; 9; 9]), d',
        [CsEnable 0 rc_en;
         BusWrite [READ; u8 (Z.shiftr 4660 8); u8 4660] rch;
         CsDisable 0 rc_dis])) \/
    (exists rc bytes,
       cat25256_read (Some (bench_handle None MEMORY_STATUS_OK))
         4660 [9; 9; 9] 2 0 (bench0 0) =
       (Val (rc, store [9; 9; 9] bytes), d',
        [CsEnable 0 rc_en;
         BusWrite [READ; u8 (Z.shiftr 4660 8); u8 4660] MEMORY_STATUS_OK;
         BusRead 2 bytes rc;
         CsDisable 0 rc_dis])).
Proof.
  split; [reflexivity|].
  apply (read_is_one_framed_exchange
           (Some (bench_handle None MEMORY_STATUS_OK))
           4660 [9; 9; 9] 2 0 (bench0 0)).
  reflexivity.
Defined.

Lemma read_register_ok_means_received_witness :
  cat25256_check_handle (Some (bench_handle None MEMORY_STATUS_OK))
    = MEMORY_STATUS_OK /\
  cat25256_read_register (Some (bench_handle None MEMORY_STATUS_OK))
    7 0 (bench0 0)
  = (Val (MEMORY_STATUS_OK, 0), {| writes_seen := 1; busy_reads := 0 |},
     [CsEnable 0 MEMORY_STATUS_OK; BusWrite [5] MEMORY_STATUS_OK;
      BusRead 1 [0] MEMORY_STATUS_OK; CsDisable 0 MEMORY_STATUS_OK]) /\
  exists rc_en rc_dis bytes,
    0 = hd 7 bytes /\
    [CsEnable 0 MEMORY_STATUS_OK; BusWrite [5] MEMORY_STATUS_OK;
     BusRead 1 [0] MEMORY_STATUS_OK; CsDisable 0 MEMORY_STATUS_OK]
    = [CsEnable 0 rc_en; BusWrite [RDSR] MEMORY_STATUS_OK;
       BusRead 1 bytes MEMORY_STATUS_OK; CsDisable 0 rc_dis].
Proof.
  split; [reflexivity|]. split; [reflexivity|].
  destruct (read_register_ok_means_received
              (Some (bench_handle None MEMORY_STATUS_OK)) 7 0 (bench0 0)
              eq_refl) as (H & _).
  apply (H 0 {| writes_seen := 1; busy_reads := 0 |}). reflexivity.
Defined.

Lemma status_write_failure_aborts_page_write_witness :
  cat25256_check_handle (Some (bench_handle (Some 0%nat) MEMORY_STATUS_OK))
    = MEMORY_STATUS_OK /\
  cat25256_write_register (Some (bench_handle (Some 0%nat) MEMORY_STATUS_OK))
    NREADY 0 (bench0 0)
  = (Val MEMORY_STATUS_NOK, {| writes_seen := 1; busy_reads := 0 |},
     [CsEnable 0 MEMORY_STATUS_OK; BusWrite [1; 1] MEMORY_STATUS_NOK;
      CsDisable 0 MEMORY_STATUS_OK]) /\
  MEMORY_STATUS_NOK <> MEMORY_STATUS_OK /\
  bus_writes
    (events
       (cat25256_write_page 1
          (Some (bench_handle (Some 0%nat) MEMORY_STATUS_OK))
          0 [1; 2; 3] 3 0 (bench0 0)))
  = [[WRSR; NREADY]].
Proof.
  assert (Hne : MEMORY_STATUS_NOK <> MEMORY_STATUS_OK) by discriminate.
  do 2 (split; [reflexivity|]). split; [exact Hne|].
  destruct (status_write_failure_aborts_page_write 1
              (Some (bench_handle (Some 0%nat) MEMORY_STATUS_OK))
              0 [1; 2; 3] 3 0 (bench0 0) _ _ _ eq_refl eq_refl Hne)
    as (_ & H).
  exact H.
Defined.

Lemma latch_enable_failure_aborts_page_write_witness :
  cat25256_write_register (Some (bench_handle (Some 1%nat) MEMORY_STATUS_OK))
    NREADY 0 (bench0 0)
  = (Val MEMORY_STATUS_OK, {| writes_seen := 1; busy_reads := 0 |},
     [CsEnable 0 MEMORY_STATUS_OK; BusWrite [1; 1] MEMORY_STATUS_OK;
      CsDisable 0 MEMORY_STATUS_OK]) /\
  cat25256_atomic_write_latch_enable
    (Some (bench_handle (Some 1%nat) MEMORY_STATUS_OK)) 0
    {| writes_seen := 1; busy_reads := 0 |}
  = (Val MEMORY_STATUS_NOK, {| writes_seen := 2; busy_reads := 0 |},
     [CsEnable 0 MEMORY_STATUS_OK; BusWrite [6] MEMORY_STATUS_NOK;
      CsDisable 0 MEMORY_STATUS_OK]) /\
  MEMORY_STATUS_NOK <> MEMORY_STATUS_OK /\
  bus_writes
    (events
       (cat25256_write_page 1
          (Some (bench_handle (Some 1%nat) MEMORY_STATUS_OK))
          0 [1; 2; 3] 3 0 (bench0 0)))
  = [[WRSR; NREADY]; [WREN]].
Proof.
  assert (Hne : MEMORY_STATUS_NOK <> MEMORY_STATUS_OK) by discriminate.
  do 2 (split; [reflexivity|]). split; [exact Hne|].
  destruct (latch_enable_failure_aborts_page_write 1
              (Some (bench_handle (Some 1%nat) MEMORY_STATUS_OK))
              0 [1; 2; 3] 3 0 (bench0 0) _ _ _ _ _ eq_refl eq_refl Hne)
    as (_ & H).
  exact H.
Defined.

Lemma busy_wait_sends_only_status_reads_witness :
  cat25256_check_handle (Some no_read_handle) <> MEMORY_STATUS_OK /\
  cat25256_atomic_wait_wip_completed 4 (Some no_read_handle) 0 (bench0 0)
  = (Val MEMORY_STATUS_NOK, bench0 0, []).
Proof.
  assert (H : cat25256_check_handle (Some no_read_handle)
              <> MEMORY_STATUS_OK) by discriminate.
  split; [exact H|].
  destruct (busy_wait_sends_only_status_reads 3 (Some no_read_handle) 0
              (bench0 0)) as (_ & E).
  exact (E H).
Defined.

Lemma page_write_ok_means_sent_witness :
  outcome
    (cat25256_write_page 1 (Some (bench_handle None MEMORY_STATUS_OK))
       4660 [7; 8; 9] 2 0 (bench0 0))
  = Val MEMORY_STATUS_OK /\
  exists rl e5,
    map forget_cs_status
      (events
         (cat25256_write_page 1 (Some (bench_handle None MEMORY_STATUS_OK))
            4660 [7; 8; 9] 2 0 (bench0 0))) =
    [PageWriteCall 4660 [7; 8; 9] 2;
     CsEnable 0 MEMORY_STATUS_OK;
     BusWrite [WRSR; NREADY] MEMORY_STATUS_OK;
     CsDisable 0 MEMORY_STATUS_OK;
     CsEnable 0 MEMORY_STATUS_OK;
     BusWrite [WREN] MEMORY_STATUS_OK;
     CsDisable 0 MEMORY_STATUS_OK;
     CsEnable 0 MEMORY_STATUS_OK;
     BusWrite [WRITE; u8 (Z.shiftr 4660 8); u8 4660] MEMORY_STATUS_OK;
     BusWrite (firstn (Z.to_nat 2) [7; 8; 9]) MEMORY_STATUS_OK;
     CsDisable 0 MEMORY_STATUS_OK;
     CsEnable 0 MEMORY_STATUS_OK;
     BusWrite [WRDI] rl;
     CsDisable 0 MEMORY_STATUS_OK]
    ++ map forget_cs_status e5 ++ [PageWriteRet MEMORY_STATUS_OK] /\
    forallb (is_status_poll 0) e5 = true /\
    existsb is_bus_read e5 = true.
Proof.
  split; [reflexivity|].
  apply (page_write_ok_means_sent 1
           (Some (bench_handle None MEMORY_STATUS_OK))
           4660 [7; 8; 9] 2 0 (bench0 0)).
  reflexivity.
Defined.

Lemma long_write_never_crosses_a_page_witness :
  (0 <= 32 /\ PAGE_SIZE < 100 /\ 100 + PAGE_SIZE < 2 ^ 31 /\
   32 + 100 + PAGE_SIZE <= 2 ^ 32) /\
  Forall fits_page
    (page_calls
       (events
          (cat25256_write 1 (Some (bench_handle (Some 7%nat) MEMORY_STATUS_OK))
             32 (repeat 170 100) 100 0 (bench0 0)))).
Proof.
  assert (H : 0 <= 32 /\ PAGE_SIZE < 100 /\ 100 + PAGE_SIZE < 2 ^ 31 /\
              32 + 100 + PAGE_SIZE <= 2 ^ 32)
    by (unfold PAGE_SIZE; lia).
  split; [exact H|]. destruct H as (H1 & H2 & H3 & H4).
  exact (long_write_never_crosses_a_page 1
           (Some (bench_handle (Some 7%nat) MEMORY_STATUS_OK))
           32 (repeat 170 100) 100 0 (bench0 0) H1 H2 H3 H4).
Defined.

Lemma aligned_write_tiles_the_range_witness :
  (0 <= 0 /\ 0 mod PAGE_SIZE = 0 /\ PAGE_SIZE < 65 /\
   65 + PAGE_SIZE < 2 ^ 31 /\ 0 + 65 + PAGE_SIZE <= 2 ^ 32) /\
  outcome
    (cat25256_write 1 (Some (bench_handle None MEMORY_STATUS_OK))
       0 (repeat 170 65) 65 0 (bench0 0))
  = Val MEMORY_STATUS_OK /\
  total_length
    (page_calls
       (events
          (cat25256_write 1 (Some (bench_handle None MEMORY_STATUS_OK))
             0 (repeat 170 65) 65 0 (bench0 0))))
  = 65 /\
  payloads
    (page_calls
       (events
          (cat25256_write 1 (Some (bench_handle None MEMORY_STATUS_OK))
             0 (repeat 170 65) 65 0 (bench0 0))))
  = firstn (Z.to_nat 65) (repeat 170 65).
Proof.
  assert (H : 0 <= 0 /\ 0 mod PAGE_SIZE = 0 /\ PAGE_SIZE < 65 /\
              65 + PAGE_SIZE < 2 ^ 31 /\ 0 + 65 + PAGE_SIZE <= 2 ^ 32)
    by (unfold PAGE_SIZE; repeat split; lia).
  split; [exact H|]. split; [reflexivity|].
  destruct H as (H1 & H2 & H3 & H4 & H5).
  destruct (aligned_write_tiles_the_range 1
              (Some (bench_handle None MEMORY_STATUS_OK))
              0 (repeat 170 65) 65 0 (bench0 0) H1 H2 H3 H4 H5 eq_refl)
    as (_ & _ & Ht & Hp).
  split; [exact Ht | exact Hp].
Defined.

Lemma unaligned_write_tiles_the_range_witness :
  (0 <= 32 /\ 32 mod PAGE_SIZE <> 0 /\ PAGE_SIZE < 100 /\
   100 + PAGE_SIZE < 2 ^ 31 /\ 32 + 100 + PAGE_SIZE <= 2 ^ 32) /\
  outcome
    (cat25256_write 1 (Some (bench_handle None MEMORY_STATUS_OK))
       32 (repeat 170 100) 100 0 (bench0 0))
  = Val MEMORY_STATUS_OK /\
  hd_error
    (page_calls
       (events
          (cat25256_write 1 (Some (bench_handle None MEMORY_STATUS_OK))
             32 (repeat 170 100) 100 0 (bench0 0))))
  = Some (32, repeat 170 100, PAGE_SIZE - 32 mod PAGE_SIZE) /\
  total_length
    (page_calls
       (events
          (cat25256_write 1 (Some (bench_handle None MEMORY_STATUS_OK))
             32 (repeat 170 100) 100 0 (bench0 0))))
  = 100.
Proof.
  assert (H : 0 <= 32 /\ 32 mod PAGE_SIZE <> 0 /\ PAGE_SIZE < 100 /\
              100 + PAGE_SIZE < 2 ^ 31 /\ 32 + 100 + PAGE_SIZE <= 2 ^ 32)
    by (unfold PAGE_SIZE; repeat split; try lia; discriminate).
  split; [exact H|]. split; [reflexivity|].
  destruct H as (H1 & H2 & H3 & H4 & H5).
  destruct (unaligned_write_tiles_the_range 1
              (Some (bench_handle None MEMORY_STATUS_OK))
              32 (repeat 170 100) 100 0 (bench0 0) H1 H2 H3 H4 H5 eq_refl)
    as (Hh & _ & Ht & _).
  split; [exact Hh | exact Ht].
Defined.

Lemma huge_unaligned_write_ends_after_first_page_witness :
  (0 <= 1 /\ 1 mod PAGE_SIZE <> 0 /\
   2 ^ 31 + PAGE_SIZE <= 2 ^ 31 + 64 < 2 ^ 32) /\
  page_calls
    (events
       (cat25256_write 1 (Some (bench_handle None MEMORY_STATUS_OK))
          1 [1; 2; 3] (2 ^ 31 + 64) 0 (bench0 0)))
  = [(1, [1; 2; 3], PAGE_SIZE - 1 mod PAGE_SIZE)].
Proof.
  assert (H : 0 <= 1 /\ 1 mod PAGE_SIZE <> 0 /\
              2 ^ 31 + PAGE_SIZE <= 2 ^ 31 + 64 < 2 ^ 32)
    by (unfold PAGE_SIZE; repeat split; try lia; discriminate).
  split; [exact H|]. destruct H as (H1 & H2 & H3).
  destruct (huge_unaligned_write_ends_after_first_page 1
              (Some (bench_handle None MEMORY_STATUS_OK))
              1 [1; 2; 3] (2 ^ 31 + 64) 0 (bench0 0) H1 H2 H3)
    as (Hp & _).
  exact Hp.
Defined.

Lemma write_succeeds_on_a_working_bus_witness :
  (forall d bytes, fst (ready_write d bytes) = MEMORY_STATUS_OK) /\
  (forall d, ready_byte (fst (ready_read d 1))) /\
  outcome
    (cat25256_write 1
       (Some {| read := Some ready_read; write := Some ready_write;
                cs_enable := Some (ready_cs MEMORY_STATUS_NOK);
                cs_disable := Some (ready_cs MEMORY_STATUS_NOK) |})
       100 (repeat 170 300) 300 2 tt)
  = Val MEMORY_STATUS_OK.
Proof.
  assert (Hw : forall d bytes, fst (ready_write d bytes) = MEMORY_STATUS_OK)
    by (intros d bytes; reflexivity).
  assert (Hr : forall d, ready_byte (fst (ready_read d 1))).
  { intros d. split; [reflexivity|]. exists 0, []. split; reflexivity. }
  split; [exact Hw|]. split; [exact Hr|].
  destruct (write_succeeds_on_a_working_bus ready_read ready_write
              (ready_cs MEMORY_STATUS_NOK) (ready_cs MEMORY_STATUS_NOK)
              Hw Hr 100 (repeat 170 300) 300 2 tt) as (_ & H).
  exact H.
Defined.
